(** * TPCUtils: simulcast encodings, SDP shaping and transceiver binding

    A shallow embedding of [TPCUtils] (the unified-plan helper of
    [TraceablePeerConnection]) together with the properties of its SDP
    normalisation, encoding policy and transceiver selection. *)

From Stdlib Require Import ZArith QArith String Ascii.
From stdpp Require Import base list sorting gmap strings.

Local Open Scope string_scope.
Local Open Scope list_scope.
Local Open Scope nat_scope.

(** ** JavaScript values used by the code *)

Module Js.

(** The only exception the code can raise by itself: a property read on
    [undefined], or the call of a method the value does not have. *)
Inductive Error := TypeError.

(** The result of running a synchronous piece of code. *)
Inductive Completion (A : Type) :=
| Normal (a : A)
| Throw (e : Error).
Arguments Normal {A} a.
Arguments Throw {A} e.

Definition bind {A B} (f : A → Completion B) (c : Completion A) : Completion B :=
  match c with
  | Normal a => f a
  | Throw e => Throw e
  end.

#[global] Instance completion_ret : MRet Completion := @Normal.
#[global] Instance completion_bind : MBind Completion := @bind.

(** [Array.prototype.forEach] with a callback that may throw, written as
    the map it is used for: the callback's results replace the elements. *)
Fixpoint mapC {A B} (f : A → Completion B) (l : list A) : Completion (list B) :=
  match l with
  | [] => Normal []
  | x :: l' => y ← f x; ys ← mapC f l'; mret (y :: ys)
  end.

(** A loop threading an accumulator, whose body may throw. *)
Fixpoint foldC {A B} (f : A → B → Completion A) (a : A) (l : list B) : Completion A :=
  match l with
  | [] => Normal a
  | x :: l' => a' ← f a x; foldC f a' l'
  end.

(** [s.split(sep)] for a one-character separator. *)
Fixpoint split (sep : ascii) (s : string) : list string :=
  match s with
  | EmptyString => [EmptyString]
  | String c s' =>
      if Ascii.eqb c sep then EmptyString :: split sep s'
      else match split sep s' with
           | [] => [String c EmptyString]
           | w :: ws => String c w :: ws
           end
  end.

(** [s.substring(1)]. *)
Definition substring1 (s : string) : string :=
  match s with
  | EmptyString => EmptyString
  | String _ s' => s'
  end.

(** [arr.join(sep)]. *)
Fixpoint join (sep : string) (l : list string) : string :=
  match l with
  | [] => ""
  | [x] => x
  | x :: l' => String.append x (String.append sep (join sep l'))
  end.

(** Truthiness of a string: only the empty string is falsy. *)
Definition truthy (s : string) : bool := negb (String.eqb s "").

(** The result of [Number(s)], as far as the code tells results apart:
    [NaN], an integer, or any other number (a fraction, an infinity). *)
Inductive number := NaN | Integer (z : Z) | NonInteger.

(** [if (n)]: [NaN] and [0] are falsy. *)
Definition number_truthy (n : number) : bool :=
  match n with
  | NaN => false
  | Integer z => negb (z =? 0)%Z
  | NonInteger => true
  end.

(** [arr[n]]: [undefined] unless [n] is an index of the array. *)
Definition index {A} (l : list A) (n : number) : option A :=
  match n with
  | Integer z => if (0 <=? z)%Z then l !! Z.to_nat z else None
  | _ => None
  end.

(** A field that sdp-transform leaves a string, or turns into a number when
    its text reads as one.  The number is given by the text it prints as. *)
Inductive text_or_number := Text (s : string) | Numeric (printed : string).

(** A [Set] of strings: the elements in insertion order. *)
Module StringSet.
Definition t := list string.
Definition empty : t := [].
Definition add (s : t) (x : string) : t :=
  if decide (x ∈ s) then s else s ++ [x].
End StringSet.

End Js.

Import Js.

(** ** Session descriptions (the structure [sdp-transform] parses) *)

Module Sdp.

(** An [a=ssrc:] line.  [ssrc_id] is the text of the id, which is what
    [source.id.toString()] gives. *)
Record SsrcEntry := {
  ssrc_id : string;
  ssrc_attribute : string;
  ssrc_value : option string
}.

(** An [a=ssrc-group:] line: the semantics and the blank-separated ids.
    The ids are a string, except that a line listing a single id that reads
    as a number is parsed into that number. *)
Record SsrcGroup := {
  group_semantics : string;
  group_ssrcs : text_or_number
}.

(** An [a=rid:] line. *)
Record Rid := {
  rid_id : string;
  rid_direction : string
}.

(** The versioned [a=simulcast:] attribute (draft 03 form). *)
Record Simulcast03 := { simulcast_value : string }.

(** A media section.  [mline_rest] stands for the fields the code never
    reads or writes. *)
Record MLine := {
  type : string;
  ssrcs : option (list SsrcEntry);
  ssrcGroups : option (list SsrcGroup);
  rids : option (list Rid);
  simulcast : option string;
  simulcast_03 : option Simulcast03;
  mline_rest : list (string * string)
}.

Definition set_ssrcs (m : MLine) (v : option (list SsrcEntry)) : MLine :=
  {| type := type m; ssrcs := v; ssrcGroups := ssrcGroups m; rids := rids m;
     simulcast := simulcast m; simulcast_03 := simulcast_03 m;
     mline_rest := mline_rest m |}.

Definition set_rids (m : MLine) (v : option (list Rid)) : MLine :=
  {| type := type m; ssrcs := ssrcs m; ssrcGroups := ssrcGroups m; rids := v;
     simulcast := simulcast m; simulcast_03 := simulcast_03 m;
     mline_rest := mline_rest m |}.

Definition set_simulcast (m : MLine) (v : option string) : MLine :=
  {| type := type m; ssrcs := ssrcs m; ssrcGroups := ssrcGroups m; rids := rids m;
     simulcast := v; simulcast_03 := simulcast_03 m;
     mline_rest := mline_rest m |}.

Definition set_simulcast_03 (m : MLine) (v : option Simulcast03) : MLine :=
  {| type := type m; ssrcs := ssrcs m; ssrcGroups := ssrcGroups m; rids := rids m;
     simulcast := simulcast m; simulcast_03 := v;
     mline_rest := mline_rest m |}.

Record Parsed := {
  media : list MLine;
  session_rest : list (string * string)
}.

Definition set_media (p : Parsed) (ms : list MLine) : Parsed :=
  {| media := ms; session_rest := session_rest p |}.

(** [RTCSessionDescription]. *)
Record Description := {
  desc_type : string;
  sdp : string
}.

End Sdp.

Import Sdp.

(** ** ensureCorrectOrderOfSsrcs *)

(** The tokens of one group: [group.ssrcs.split(' ').filter(Boolean)].  A
    number has no [split]: the call throws. *)
Definition groupMembers (group : SsrcGroup) : Completion (list string) :=
  match group_ssrcs group with
  | Text ssrcs => Normal (filter (λ s, s ≠ "") (split " " ssrcs))
  | Numeric _ => Throw TypeError
  end.

(** The [Set] filled by the loop over the groups. *)
Definition collectSsrcs (groups : list SsrcGroup) : Completion StringSet.t :=
  foldC (λ set group,
           members ← groupMembers group;
           mret (foldl StringSet.add set members))
        StringSet.empty groups.

(** The callback of [parsedSdp.media.forEach].  Filling the set throws on a
    group whose ids are a number, and reading [mLine.ssrcs.filter] throws
    when the section has no ssrc lines. *)
Definition reorderSsrcs (mLine : MLine) : Completion MLine :=
  if decide (type mLine = "audio") then Normal mLine
  else match ssrcGroups mLine with
       | None | Some [] => Normal mLine
       | Some groups =>
           ssrcs ← collectSsrcs groups;
           reorderedSsrcs ←
             foldC (λ reorderedSsrcs ssrc,
                      match Sdp.ssrcs mLine with
                      | None => Throw TypeError
                      | Some all =>
                          let sources := filter (λ source, ssrc_id source = ssrc) all in
                          Normal (reorderedSsrcs ++ sources)
                      end)
                   [] ssrcs;
           mret (set_ssrcs mLine (Some reorderedSsrcs))
       end.

Definition ensureCorrectOrderOfSsrcs_parsed (parsedSdp : Parsed) : Completion Parsed :=
  media' ← mapC reorderSsrcs (media parsedSdp);
  mret (set_media parsedSdp media').

Section SdpTransform.

(** [transform.parse] and [transform.write] of the sdp-transform package. *)
Variable parse : string → Parsed.
Variable write : Parsed → string.

Definition ensureCorrectOrderOfSsrcs (description : Description)
  : Completion Description :=
  parsedSdp ← ensureCorrectOrderOfSsrcs_parsed (parse (sdp description));
  mret {| desc_type := desc_type description; sdp := write parsedSdp |}.

End SdpTransform.

(** Vocabulary for stating the order of the result: the ids the groups
    refer to, in the order in which the group lines list them, and the
    position at which an id first appears there. *)
Definition groupTokens (group : SsrcGroup) : list string :=
  match group_ssrcs group with
  | Text ssrcs => filter (λ s, s ≠ "") (split " " ssrcs)
  | Numeric _ => []
  end.

Definition referencedIds (groups : list SsrcGroup) : list string :=
  groups ≫= groupTokens.

(** The group lists its ids as a string. *)
Definition listsText (group : SsrcGroup) : Prop :=
  ∃ ssrcs, group_ssrcs group = Text ssrcs.

(** The set the loop over the groups ends with when every group lists its
    ids as a string. *)
Definition collectedIds (groups : list SsrcGroup) : StringSet.t :=
  foldl (λ set group, foldl StringSet.add set (groupTokens group))
        StringSet.empty groups.

Fixpoint firstIndex (s : string) (ids : list string) : nat :=
  match ids with
  | [] => 0
  | t :: ids' => if decide (t = s) then 0 else S (firstIndex s ids')
  end.

(** The ssrc lines of a section; none when the field is absent. *)
Definition ssrcLines (m : MLine) : list SsrcEntry := default [] (ssrcs m).

(** ** Constants and enumerations *)

Module MediaType.
Definition AUDIO : string := "audio".
Definition PRESENTER : string := "presenter".
Definition VIDEO : string := "video".
End MediaType.

Module VideoType.
Definition CAMERA : string := "camera".
Definition DESKTOP : string := "desktop".
End VideoType.

Definition SIM_LAYER_1_RID : string := "1".
Definition SIM_LAYER_2_RID : string := "2".
Definition SIM_LAYER_3_RID : string := "3".
Definition SIM_LAYER_RIDS : list string :=
  [SIM_LAYER_1_RID; SIM_LAYER_2_RID; SIM_LAYER_3_RID].

(** Modelled from the spec: the declaration of [MediaDirection] is missing
    from the sources; these are the transceiver directions the spec lists
    (sendrecv, recvonly, inactive, stopped) with the platform's sendonly. *)
Inductive MediaDirection := SENDRECV | SENDONLY | RECVONLY | INACTIVE | STOPPED.

#[global] Instance MediaDirection_eq_dec : EqDecision MediaDirection.
Proof. solve_decision. Defined.

(** Modelled from the spec: the declaration of [LD_SCALE_FACTOR] is missing
    from the sources; the lowest-resolution layer has scale factor 4.0. *)
Definition LD_SCALE_FACTOR : Q := 4.

(** Modelled from the spec: the declaration of [HD_SCALE_FACTOR] is missing
    from the sources; the high-definition reference factor is 1.0. *)
Definition HD_SCALE_FACTOR : Q := 1.

(** Modelled from the spec: the declaration of [HD_BITRATE] is missing from
    the sources; the flat rate with a presenter overlay, 2500 Kbps in the
    comment of [calculateEncodingsBitrates]. *)
Definition HD_BITRATE : Z := 2500000.

(** Modelled from the spec: the declaration of [DESKTOP_SHARE_RATE] is
    missing from the sources; the default desktop rate, 500 Kbps in the
    comment of [calculateEncodingsBitrates]. *)
Definition DESKTOP_SHARE_RATE : Z := 500000.

(** ** Collaborators: browser, tracks, transport *)

(** The predicates of the [browser] singleton the code asks. *)
Record Browser := {
  isFirefox : bool;
  isVersionGreaterThan : Z → bool;
  usesSdpMungingForSimulcast : bool;
  isWebKitBased : bool;
  isChromiumBased : bool;
  isReactNative : bool
}.

(** A platform [MediaStreamTrack]; [settings_height] is
    [getSettings().height], which a platform may leave undefined. *)
Record MediaStreamTrack := {
  track_id : string;
  kind : string;
  settings_height : option Z
}.

Record MediaStream := { stream_id : string }.

(** What the code reads of a [JitsiLocalTrack]: the results of its getters
    and two of its fields.  [_originalStream] is the field the code reads
    directly, [getOriginalStream] the result of the getter; [conference]
    tells whether the track's [conference] field is set. *)
Record JitsiLocalTrack := {
  rtcId : Z;
  getTrack : MediaStreamTrack;
  getTrackId : string;
  getType : string;
  isVideoTrack : bool;
  getVideoType : string;
  getOriginalStream : option MediaStream;
  _originalStream : option MediaStream;
  getStreamId : option string;
  isMuted : bool;
  getSourceName : option string;
  conference : bool
}.

(** An entry of [RTCRtpSendParameters.encodings]; a field left out of the
    object literal is [None]. *)
Record Encoding := {
  active : bool;
  maxBitrate : option Z;
  rid : option string;
  scaleResolutionDownBy : option Q
}.

Record VideoBitrates := { low : Z; standard : Z; high : Z }.

(** A transceiver of the native peer connection: the kind of its receiver's
    track, its direction, the negotiated direction ([null] before the first
    negotiation), and its sender's track, streams and encodings. *)
Record RTCRtpTransceiver := {
  receiver_kind : string;
  direction : MediaDirection;
  currentDirection : option MediaDirection;
  sender_track : option MediaStreamTrack;
  sender_streams : list (option MediaStream);
  sender_encodings : list Encoding
}.

Definition set_direction (t : RTCRtpTransceiver) (d : MediaDirection) : RTCRtpTransceiver :=
  {| receiver_kind := receiver_kind t; direction := d;
     currentDirection := currentDirection t; sender_track := sender_track t;
     sender_streams := sender_streams t; sender_encodings := sender_encodings t |}.

(** The effect of [sender.replaceTrack(track)]. *)
Definition sender_replaceTrack (t : RTCRtpTransceiver) (track : option MediaStreamTrack)
  : RTCRtpTransceiver :=
  {| receiver_kind := receiver_kind t; direction := direction t;
     currentDirection := currentDirection t; sender_track := track;
     sender_streams := sender_streams t; sender_encodings := sender_encodings t |}.

(** The effect of [sender.setParameters] with a new [encodings] field. *)
Definition sender_setEncodings (t : RTCRtpTransceiver) (encodings : list Encoding)
  : RTCRtpTransceiver :=
  {| receiver_kind := receiver_kind t; direction := direction t;
     currentDirection := currentDirection t; sender_track := sender_track t;
     sender_streams := sender_streams t; sender_encodings := encodings |}.

Record RTCRtpTransceiverInit := {
  init_direction : MediaDirection;
  init_streams : list (option MediaStream);
  init_sendEncodings : list Encoding
}.

(** [peerconnection.addTransceiver(track, init)]: a new transceiver, last in
    [getTransceivers()], sending [track] with the given encodings. *)
Definition addTransceiver (track : MediaStreamTrack) (init : RTCRtpTransceiverInit)
    (transceivers : list RTCRtpTransceiver) : list RTCRtpTransceiver :=
  transceivers ++
    [ {| receiver_kind := kind track; direction := init_direction init;
         currentDirection := None; sender_track := Some track;
         sender_streams := init_streams init;
         sender_encodings := init_sendEncodings init |} ].

(** The [TraceablePeerConnection] as the code sees it: the transceivers of
    the native connection, the map of local tracks by [rtcId], and the
    answers of [isSimulcastOn()], [isSharingLowFpsScreen()],
    [usesUnifiedPlan()] and [options?.videoQuality?.desktopBitrate]. *)
Record TraceablePeerConnection := {
  transceivers : list RTCRtpTransceiver;
  localTracks : gmap Z JitsiLocalTrack;
  isSimulcastOn : bool;
  isSharingLowFpsScreen : bool;
  usesUnifiedPlan : bool;
  desktopBitrate : option Z
}.

Definition set_transceivers (pc : TraceablePeerConnection)
    (ts : list RTCRtpTransceiver) : TraceablePeerConnection :=
  {| transceivers := ts; localTracks := localTracks pc;
     isSimulcastOn := isSimulcastOn pc;
     isSharingLowFpsScreen := isSharingLowFpsScreen pc;
     usesUnifiedPlan := usesUnifiedPlan pc; desktopBitrate := desktopBitrate pc |}.

Definition set_localTracks (pc : TraceablePeerConnection)
    (m : gmap Z JitsiLocalTrack) : TraceablePeerConnection :=
  {| transceivers := transceivers pc; localTracks := m;
     isSimulcastOn := isSimulcastOn pc;
     isSharingLowFpsScreen := isSharingLowFpsScreen pc;
     usesUnifiedPlan := usesUnifiedPlan pc; desktopBitrate := desktopBitrate pc |}.

(** How a call that returns a promise ends: the promise is fulfilled, it is
    rejected with [new Error(message)], or the call throws before a promise
    exists. *)
Inductive Outcome (A : Type) :=
| Resolved (a : A)
| Rejected (message : string)
| Thrown (e : Error).
Arguments Resolved {A} a.
Arguments Rejected {A} message.
Arguments Thrown {A} e.

(** ** TPCUtils *)

(** An instance: the connection it serves and the configured bitrates.  The
    connection is the state the operations below thread. *)
Record TPCUtils := {
  pc : TraceablePeerConnection;
  videoBitrates : VideoBitrates
}.

Definition with_pc (this : TPCUtils) (pc' : TraceablePeerConnection) : TPCUtils :=
  {| pc := pc'; videoBitrates := videoBitrates this |}.

Definition with_transceivers (this : TPCUtils) (ts : list RTCRtpTransceiver) : TPCUtils :=
  with_pc this (set_transceivers (pc this) ts).

(** JavaScript arithmetic on possibly undefined operands ([None] is [NaN]).
    The divisors met here are the scale factors 1, 2 and 4. *)
Definition js_div (h : option Z) (s : option Q) : option Q :=
  match h, s with
  | Some h, Some s => Some (inject_Z h / s)%Q
  | _, _ => None
  end.

Definition js_le (x : option Q) (n : Z) : bool :=
  match x with
  | Some x => Qle_bool x (inject_Z n)
  | None => false
  end.

Definition js_strict_eq (x : option Q) (c : Q) : bool :=
  match x with
  | Some x => Qeq_bool x c
  | None => false
  end.

Section WithPlatform.

(** The environment: the [browser] singleton, the answer of
    [FeatureFlags.isMultiStreamSupportEnabled()], the method
    [getLocalTracks] of the connection, the builtin [Number], and the
    primitives of the native connection whose effect on the transceivers
    belongs to the platform. *)
Context (browser : Browser).
Context (isMultiStreamSupportEnabled : bool).
Context (getLocalTracks : TraceablePeerConnection → option string → list JitsiLocalTrack).
Context (Number : string → number).
Context (peerconnection_addTrack :
           MediaStreamTrack → list RTCRtpTransceiver → list RTCRtpTransceiver).
Context (peerconnection_addStream :
           MediaStream → list RTCRtpTransceiver → list RTCRtpTransceiver).

(** The field set by the constructor. *)
Definition localStreamEncodingsConfig (this : TPCUtils) : list Encoding :=
  [ {| active := true;
       maxBitrate := Some (if isFirefox browser then high (videoBitrates this)
                           else low (videoBitrates this));
       rid := Some SIM_LAYER_1_RID;
       scaleResolutionDownBy := Some (if isFirefox browser then 1 else 4)%Q |};
    {| active := true;
       maxBitrate := Some (standard (videoBitrates this));
       rid := Some SIM_LAYER_2_RID;
       scaleResolutionDownBy := Some 2%Q |};
    {| active := true;
       maxBitrate := Some (if isFirefox browser then low (videoBitrates this)
                           else high (videoBitrates this));
       rid := Some SIM_LAYER_3_RID;
       scaleResolutionDownBy := Some (if isFirefox browser then 4 else 1)%Q |} ].

Definition _getStreamEncodings (this : TPCUtils) (localTrack : JitsiLocalTrack)
  : list Encoding :=
  if isSimulcastOn (pc this) && isVideoTrack localTrack
  then localStreamEncodingsConfig this
  else if isVideoTrack localTrack
       then [ {| active := true; maxBitrate := Some (high (videoBitrates this));
                 rid := None; scaleResolutionDownBy := None |} ]
       else [ {| active := true; maxBitrate := None;
                 rid := None; scaleResolutionDownBy := None |} ].

(** *** insertUnifiedPlanSimulcastReceive *)

Section SdpTransformSimulcast.

Variable parse : string → Parsed.
Variable write : Parsed → string.

Definition insertUnifiedPlanSimulcastReceive (desc : Description)
  : Completion Description :=
  if usesSdpMungingForSimulcast browser then Normal desc
  else
    let sdp := parse (Sdp.sdp desc) in
    (* findIndex gives -1 when no section is a video one, and the read of
       [sdp.media[-1].rids] throws *)
    match list_find (λ mline, type mline = "video") (media sdp) with
    | None => Throw TypeError
    | Some (idx, first) =>
        if bool_decide (is_Some (rids first))
           && (bool_decide (is_Some (simulcast_03 first))
               || bool_decide (is_Some (simulcast first)))
        then
          let media' :=
            imap (λ i mline,
                    if bool_decide (type mline = "video") && negb (i =? idx)
                    then set_simulcast_03 (set_simulcast (set_rids mline None) None) None
                    else mline)
                 (media sdp) in
          Normal {| desc_type := desc_type desc; Sdp.sdp := write (set_media sdp media') |}
        else
          let rids' :=
            [ {| rid_id := SIM_LAYER_1_RID; rid_direction := "recv" |};
              {| rid_id := SIM_LAYER_2_RID; rid_direction := "recv" |};
              {| rid_id := SIM_LAYER_3_RID; rid_direction := "recv" |} ] in
          let simulcastLine :=
            if isFirefox browser && isVersionGreaterThan browser 71
            then "recv " +:+ join ";" SIM_LAYER_RIDS
            else "recv rid=" +:+ join ";" SIM_LAYER_RIDS in
          let first' :=
            set_simulcast_03 (set_rids first (Some rids'))
                             (Some {| simulcast_value := simulcastLine |}) in
          Normal {| desc_type := desc_type desc;
                    Sdp.sdp := write (set_media sdp (<[idx := first']> (media sdp))) |}
    end.

End SdpTransformSimulcast.

(** *** addTrack *)

Definition addTrack (this : TPCUtils) (localTrack : JitsiLocalTrack) (isInitiator : bool)
  : TPCUtils :=
  let track := getTrack localTrack in
  if isInitiator then
    let transceiverInit :=
      {| init_direction := SENDRECV;
         init_streams := [ getOriginalStream localTrack ];
         init_sendEncodings :=
           if negb (isFirefox browser) then _getStreamEncodings this localTrack else [] |} in
    with_transceivers this (addTransceiver track transceiverInit (transceivers (pc this)))
  else
    with_transceivers this (peerconnection_addTrack track (transceivers (pc this))).

(** *** setEncodings *)

(** [transceiver.sender] is read without a check: with no transceiver found
    the call throws. *)
Definition setEncodings (this : TPCUtils) (track : JitsiLocalTrack)
  : Outcome () * TPCUtils :=
  match list_find (λ t, kind <$> sender_track t = Some (getType track))
                  (transceivers (pc this)) with
  | None => (Thrown TypeError, this)
  | Some (i, transceiver) =>
      let encodings := _getStreamEncodings this track in
      (Resolved (),
       with_transceivers this
         (<[i := sender_setEncodings transceiver encodings]> (transceivers (pc this))))
  end.

(** *** addTrackUnmute *)

Definition addTrackUnmute (this : TPCUtils) (localTrack : JitsiLocalTrack)
  : Outcome () * TPCUtils :=
  let mediaType := getType localTrack in
  let track := getTrack localTrack in
  match list_find (λ t, receiver_kind t = mediaType) (transceivers (pc this)) with
  | None => (Rejected ("RTCRtpTransceiver for " +:+ mediaType +:+ " not found"), this)
  | Some (i, transceiver) =>
      if decide (direction transceiver = RECVONLY) then
        match getOriginalStream localTrack with
        | Some stream =>
            let this1 :=
              with_transceivers this
                (peerconnection_addStream stream (transceivers (pc this))) in
            match setEncodings this1 localTrack with
            | (Resolved _, this2) =>
                let this3 :=
                  with_pc this2
                    (set_localTracks (pc this2)
                       (<[rtcId localTrack := localTrack]> (localTracks (pc this2)))) in
                (Resolved (),
                 with_transceivers this3
                   (alter (λ t, set_direction t SENDRECV) i (transceivers (pc this3))))
            | failed => failed
            end
        | None => (Resolved (), this)
        end
      else
        (Resolved (),
         with_transceivers this
           (<[i := sender_replaceTrack transceiver (Some track)]> (transceivers (pc this))))
  end.

(** *** removeTrackMute *)

Definition removeTrackMute (this : TPCUtils) (localTrack : JitsiLocalTrack)
  : Outcome () * TPCUtils :=
  let mediaType := getType localTrack in
  match list_find (λ t, track_id <$> sender_track t = Some (getTrackId localTrack))
                  (transceivers (pc this)) with
  | None => (Rejected ("RTCRtpTransceiver for " +:+ mediaType +:+ " not found"), this)
  | Some (i, transceiver) =>
      (Resolved (),
       with_transceivers this
         (<[i := sender_replaceTrack transceiver None]> (transceivers (pc this))))
  end.

(** *** calculateEncodingsActiveState *)

Definition calculateEncodingsActiveState (this : TPCUtils)
    (localVideoTrack : JitsiLocalTrack) (newHeight : Z) : list bool :=
  let localTrack := getTrack localVideoTrack in
  let height := settings_height localTrack in
  let config := localStreamEncodingsConfig this in
  imap (λ idx frameHeight,
          let scale := config !! idx ≫= scaleResolutionDownBy in
          let active :=
            if String.eqb (getVideoType localVideoTrack) VideoType.CAMERA
            then if (0 <? newHeight)%Z && js_strict_eq scale LD_SCALE_FACTOR
                 then true
                 else js_le frameHeight newHeight
            else true in
          if isSharingLowFpsScreen (pc this)
             && String.eqb (getVideoType localVideoTrack) VideoType.DESKTOP
             && usesUnifiedPlan (pc this)
             && negb (isWebKitBased browser)
             && negb (js_strict_eq scale HD_SCALE_FACTOR)
          then false
          else active)
       (map (λ encoding, js_div height (scaleResolutionDownBy encoding)) config).

(** *** calculateEncodingsBitrates *)

(** An entry is [None] where the code yields [undefined]. *)
Definition calculateEncodingsBitrates (this : TPCUtils)
    (localVideoTrack : JitsiLocalTrack) : list (option Z) :=
  let videoType := getVideoType localVideoTrack in
  let desktopShareBitrate :=
    match desktopBitrate (pc this) with
    | Some rate => if (rate =? 0)%Z then DESKTOP_SHARE_RATE else rate
    | None => DESKTOP_SHARE_RATE
    end in
  let presenterEnabled :=
    match _originalStream localVideoTrack with
    | Some original =>
        negb (bool_decide (Some (stream_id original) = getStreamId localVideoTrack))
    | None => false
    end in
  map (λ encoding,
         if isSharingLowFpsScreen (pc this) && negb (isWebKitBased browser)
         then Some (if presenterEnabled then HD_BITRATE else desktopShareBitrate)
         else if String.eqb videoType VideoType.DESKTOP
                 && isChromiumBased browser
                 && negb (usesUnifiedPlan (pc this))
              then None
              else maxBitrate encoding)
      (localStreamEncodingsConfig this).

(** *** replaceTrack *)

(** [getTransceivers()] with the position of each transceiver. *)
Definition indexed (ts : list RTCRtpTransceiver) : list (nat * RTCRtpTransceiver) :=
  imap pair ts.

(** [a ? a : b] on strings that may be undefined. *)
Definition truthy_or (a b : option string) : option string :=
  match a with
  | Some s => if truthy s then Some s else b
  | None => b
  end.

(** The locals [mediaType], [isNewLocalSource] and [sourceName] of
    [replaceTrack]. *)
Definition replaceTrack_mediaType (oldTrack newTrack : option JitsiLocalTrack)
  : option string :=
  truthy_or (getType <$> newTrack) (getType <$> oldTrack).

Definition isNewLocalSource (this : TPCUtils)
    (oldTrack newTrack : option JitsiLocalTrack) : bool :=
  isMultiStreamSupportEnabled
  && negb (length (getLocalTracks (pc this)
                     (replaceTrack_mediaType oldTrack newTrack)) =? 0)
  && negb (bool_decide (is_Some oldTrack))
  && match newTrack with
     | Some new => negb (conference new)
     | None => false
     end.

Definition replaceTrack_sourceName (oldTrack newTrack : option JitsiLocalTrack)
  : option string :=
  truthy_or (newTrack ≫= getSourceName) (oldTrack ≫= getSourceName).

(** [oldTrack && !oldTrack.isMuted()]. *)
Definition unmuted (oldTrack : option JitsiLocalTrack) : bool :=
  match oldTrack with
  | Some old => negb (isMuted old)
  | None => false
  end.

(** The transceiver [replaceTrack] settles on, with its position.  The read
    of [sourceName.split('-')[1].substring] throws for a name without a
    dash. *)
Definition replaceTrack_select (this : TPCUtils)
    (oldTrack newTrack : option JitsiLocalTrack)
  : Completion (option (nat * RTCRtpTransceiver)) :=
  let mediaType := replaceTrack_mediaType oldTrack newTrack in
  let getTransceivers := transceivers (pc this) in
  if unmuted oldTrack then
    Normal (list_find (λ t, track_id <$> sender_track t
                            = track_id ∘ getTrack <$> oldTrack)
                      getTransceivers)
  else if isNewLocalSource this oldTrack newTrack then
    Normal (list_find (λ t, Some (receiver_kind t) = mediaType
                            ∧ direction t = RECVONLY
                            ∧ currentDirection t = Some INACTIVE)
                      getTransceivers)
  else
    let transceiver :=
      list_find (λ t, Some (receiver_kind t) = mediaType) getTransceivers in
    match replaceTrack_sourceName oldTrack newTrack with
    | Some sourceName =>
        if truthy sourceName then
          match split "-" sourceName !! 1 with
          | None => Throw TypeError
          | Some field =>
              let trackIndex := Number (substring1 field) in
              if number_truthy trackIndex then
                Normal (index (filter (λ it, Some (receiver_kind it.2) = mediaType
                                             ∧ direction it.2 ≠ RECVONLY)
                                      (indexed getTransceivers))
                              trackIndex)
              else Normal transceiver
          end
        else Normal transceiver
    | None => Normal transceiver
    end.

Definition replaceTrack (this : TPCUtils) (oldTrack newTrack : option JitsiLocalTrack)
  : Outcome RTCRtpTransceiver * TPCUtils :=
  let track := getTrack <$> newTrack in
  match replaceTrack_select this oldTrack newTrack with
  | Throw e => (Thrown e, this)
  | Normal None => (Rejected "replace track failed", this)
  | Normal (Some (i, transceiver)) =>
      let transceiver' := sender_replaceTrack transceiver track in
      (Resolved transceiver',
       with_transceivers this (<[i := transceiver']> (transceivers (pc this))))
  end.

(** *** getLocalStreamHeightConstraints *)

(** [None] is the [null] returned on React Native; an entry is [None] where
    the division gives [NaN]. *)
Definition getLocalStreamHeightConstraints (this : TPCUtils)
    (localTrack : MediaStreamTrack) : option (list (option Q)) :=
  if isReactNative browser then None
  else
    let height := settings_height localTrack in
    Some (foldl (λ localVideoHeightConstraints encoding,
                   localVideoHeightConstraints
                     ++ [js_div height (scaleResolutionDownBy encoding)])
                [] (localStreamEncodingsConfig this)).

(** *** setMediaTransferActive *)

(** The direction the loop body gives the [idx]-th transceiver of the
    filtered array. *)
Definition transferDirection (active : bool) (idx : nat)
    (localTracks : list JitsiLocalTrack) : MediaDirection :=
  if active then
    if (idx =? 0) && negb (length localTracks =? 0) then SENDRECV else RECVONLY
  else INACTIVE.

(** The filtered array holds the transceivers themselves: the loop writes
    the direction of the transceiver at the position it was taken from. *)
Definition setMediaTransferActive (this : TPCUtils) (mediaType : string) (active : bool)
  : TPCUtils :=
  let getTransceivers := transceivers (pc this) in
  let transceivers :=
    filter (λ it, receiver_kind it.2 = mediaType) (indexed getTransceivers) in
  let localTracks := getLocalTracks (pc this) (Some mediaType) in
  with_transceivers this
    (foldl (λ all entry,
              let idx := entry.1 in
              let position := entry.2.1 in
              alter (λ transceiver,
                       set_direction transceiver
                         (transferDirection active idx localTracks))
                    position all)
           getTransceivers
           (imap pair transceivers)).

Definition setAudioTransferActive (this : TPCUtils) (active : bool) : TPCUtils :=
  setMediaTransferActive this MediaType.AUDIO active.

Definition setVideoTransferActive (this : TPCUtils) (active : bool) : TPCUtils :=
  setMediaTransferActive this MediaType.VIDEO active.

End WithPlatform.

(** [Number] on the texts the examples use: a run of decimal digits is the
    integer it spells, the empty text is 0, any other text here is not a
    number. *)
Fixpoint digits_value (acc : Z) (s : string) : option Z :=
  match s with
  | EmptyString => Some acc
  | String c s' =>
      let n := nat_of_ascii c in
      if (48 <=? n) && (n <=? 57)
      then digits_value (10 * acc + Z.of_nat (n - 48)) s'
      else None
  end.

Definition decimalNumber (s : string) : number :=
  match digits_value 0 s with
  | Some z => Integer z
  | None => NaN
  end.

(** A list of ssrc lines in which the lines come by position of first
    appearance of their id in [ids] (so the lines of one id are next to one
    another). *)
Definition orderedByFirstAppearance (ids : list string) (l : list SsrcEntry) : Prop :=
  StronglySorted
    (λ e1 e2, firstIndex (ssrc_id e1) ids ≤ firstIndex (ssrc_id e2) ids) l.

(** Sections the code leaves alone. *)
Definition passesThrough (m : MLine) : Prop :=
  type m = "audio" ∨ ssrcGroups m = None ∨ ssrcGroups m = Some [].

(** A section with groups that the reordering can work on: it has ssrc
    lines, and each of its groups lists its ids as a string. *)
Definition reorderable (m : MLine) : Prop :=
  is_Some (ssrcs m)
  ∧ ∀ groups, ssrcGroups m = Some groups → Forall listsText groups.

(** A video section whose FID group covers two of its three ssrc lines. *)
Definition section_with_stray_ssrc : MLine :=
  {| type := "video";
     ssrcs := Some [ {| ssrc_id := "3"; ssrc_attribute := "cname"; ssrc_value := Some "c" |};
                     {| ssrc_id := "2"; ssrc_attribute := "cname"; ssrc_value := Some "c" |};
                     {| ssrc_id := "1"; ssrc_attribute := "cname"; ssrc_value := Some "c" |} ];
     ssrcGroups := Some [ {| group_semantics := "FID"; group_ssrcs := Text "1 2" |} ];
     rids := None; simulcast := None; simulcast_03 := None; mline_rest := [] |}.

(** A simulcast video section: a SIM group over three primaries and a FID
    group pairing each with its RTX stream. *)
Definition simulcast_section : MLine :=
  {| type := "video";
     ssrcs := Some [ {| ssrc_id := "14"; ssrc_attribute := "msid"; ssrc_value := Some "s v" |};
                     {| ssrc_id := "11"; ssrc_attribute := "msid"; ssrc_value := Some "s v" |};
                     {| ssrc_id := "12"; ssrc_attribute := "msid"; ssrc_value := Some "s v" |};
                     {| ssrc_id := "11"; ssrc_attribute := "cname"; ssrc_value := Some "c" |};
                     {| ssrc_id := "13"; ssrc_attribute := "msid"; ssrc_value := Some "s v" |} ];
     ssrcGroups := Some [ {| group_semantics := "SIM"; group_ssrcs := Text "11 12 13" |};
                          {| group_semantics := "FID"; group_ssrcs := Text "11 14" |} ];
     rids := None; simulcast := None; simulcast_03 := None; mline_rest := [] |}.

Definition audio_section : MLine :=
  {| type := "audio";
     ssrcs := Some [ {| ssrc_id := "7"; ssrc_attribute := "cname"; ssrc_value := Some "c" |} ];
     ssrcGroups := None;
     rids := None; simulcast := None; simulcast_03 := None; mline_rest := [] |}.

Definition sample_parsed : Parsed :=
  {| media := [audio_section; simulcast_section]; session_rest := [] |}.

Definition sample_description : Description :=
  {| desc_type := "offer"; sdp := "v=0" |}.

(** [simulcast_section] with its ssrc lines in the order the code gives. *)
Definition simulcast_section_normal : MLine :=
  set_ssrcs simulcast_section
    (Some [ {| ssrc_id := "11"; ssrc_attribute := "msid"; ssrc_value := Some "s v" |};
            {| ssrc_id := "11"; ssrc_attribute := "cname"; ssrc_value := Some "c" |};
            {| ssrc_id := "12"; ssrc_attribute := "msid"; ssrc_value := Some "s v" |};
            {| ssrc_id := "13"; ssrc_attribute := "msid"; ssrc_value := Some "s v" |};
            {| ssrc_id := "14"; ssrc_attribute := "msid"; ssrc_value := Some "s v" |} ]).

Definition sample_parsed_normal : Parsed :=
  {| media := [audio_section; simulcast_section_normal]; session_rest := [] |}.

(** A parser and a writer on two texts, enough to run the code on
    [sample_description] and on what it returns. *)
Definition sample_parse (text : string) : Parsed :=
  if String.eqb text "v=0" then sample_parsed else sample_parsed_normal.

Definition sample_write (p : Parsed) : string := "v=0 normal".

(** ** Sample collaborators: sdp-transform on ssrc lines

    [transform.parse] and [transform.write] of the sdp-transform package on
    the lines this development needs: the version and the name of the
    session, media lines, ssrc lines and ssrc-group lines.  The parser skips
    a line of another kind, and the writer puts out no other field. *)

Module transform.

Definition CRLF : string := String "013"%char (String "010"%char "").

(** The character classes of the grammar's patterns. *)
Definition between (lo hi : nat) (c : ascii) : bool :=
  let n := nat_of_ascii c in (lo <=? n) && (n <=? hi).

Definition digit (c : ascii) : bool := between 48 57 c.

Definition word (c : ascii) : bool :=
  digit c || between 65 90 c || between 97 122 c || Ascii.eqb c "_".

Definition wordOrSlash (c : ascii) : bool := word c || Ascii.eqb c "/".

Definition wordOrDash (c : ascii) : bool := word c || Ascii.eqb c "-".

Definition tokenChar (c : ascii) : bool :=
  word c
  || existsb (Ascii.eqb c) ["!"; "#"; "$"; "%"; "&"; "'"; "*"; "+"; "-"; "."]%char.

(** A starred character class at the start of a text: the longest prefix in
    the class, and what follows it. *)
Fixpoint star (class : ascii → bool) (s : string) : string * string :=
  match s with
  | EmptyString => (EmptyString, EmptyString)
  | String c s' =>
      if class c
      then let '(matched, rest) := star class s' in (String c matched, rest)
      else (EmptyString, s)
  end.

(** A literal at the start of a text: what follows it, if the text starts
    with it. *)
Fixpoint literal (prefix s : string) : option string :=
  match prefix, s with
  | EmptyString, _ => Some s
  | String a prefix', String b s' =>
      if Ascii.eqb a b then literal prefix' s' else None
  | String _ _, EmptyString => None
  end.

(** [String(Number(v)) === v] on a text of digits, the only texts this
    model turns into numbers: the digits spell a number the way it prints,
    without a leading zero and short enough to be exact. *)
Definition printsAsItself (v : string) : bool :=
  let '(digits, rest) := star digit v in
  String.eqb rest ""
  && match digits with
     | EmptyString => false
     | String c EmptyString => true
     | String c (String _ _) => negb (Ascii.eqb c "0")
     end
  && (String.length digits <=? 15).

(** [toIntIfInt(v)]: [String(Number(v)) === v ? Number(v) : v]. *)
Definition toIntIfInt (v : string) : text_or_number :=
  if printsAsItself v then Numeric v else Text v.

Fixpoint dropZeros (s : string) : string :=
  match s with
  | EmptyString => EmptyString
  | String c s' => if Ascii.eqb c "0" then dropZeros s' else s
  end.

(** The [%d] of the writer's formats, [Number(v)] put into the line, on the
    texts the patterns capture as runs of digits: leading zeros go, and the
    empty text reads as 0. *)
Definition formatNumber (v : string) : string :=
  let '(digits, rest) := star digit v in
  if String.eqb rest ""
  then match dropZeros digits with
       | EmptyString => "0"
       | number => number
       end
  else "NaN".

Fixpoint field (name : string) (fields : list (string * string)) : option string :=
  match fields with
  | [] => None
  | (key, value) :: fields' =>
      if String.eqb key name then Some value else field name fields'
  end.

Definition setField (name value : string) (fields : list (string * string))
  : list (string * string) :=
  filter (λ entry, entry.1 ≠ name) fields ++ [(name, value)].

(** The section a media line opens, before its pattern is matched.  The
    parser gives it no type; the record takes the empty text for that. *)
Definition opened : MLine :=
  {| type := ""; ssrcs := None; ssrcGroups := None; rids := None;
     simulcast := None; simulcast_03 := None; mline_rest := [] |}.

(** The media line.  Its pattern reads a run of word characters (the type),
    a blank, a run of digits (the port), a blank, a run of word characters
    and slashes (the protocol) and then, if a blank follows, the rest of the
    line (the payloads). *)
Definition parseMedia (content : string) : MLine :=
  let '(kind, rest) := star word content in
  match literal " " rest with
  | None => opened
  | Some rest =>
      let '(port, rest) := star digit rest in
      match literal " " rest with
      | None => opened
      | Some rest =>
          let '(protocol, rest) := star wordOrSlash rest in
          {| type := kind; ssrcs := None; ssrcGroups := None; rids := None;
             simulcast := None; simulcast_03 := None;
             mline_rest :=
               [("port", port); ("protocol", protocol)]
               ++ match literal " " rest with
                  | Some payloads => [("payloads", payloads)]
                  | None => []
                  end |}
      end
  end.

(** An attribute line of a section.  After [ssrc:] the pattern reads a run
    of digits (the id), a blank, a run of word characters and dashes (the
    attribute) and then, if a colon follows, the rest of the line (the
    value); the line is pushed to [ssrcs].  After [ssrc-group:] it reads a
    run of token characters (the semantics), a blank and the rest of the
    line (the ids); the line is pushed to [ssrcGroups].  An array is made
    by the first line pushed to it. *)
Definition parseAttribute (content : string) (mLine : MLine) : MLine :=
  match literal "ssrc:" content with
  | Some rest =>
      let '(id, rest) := star digit rest in
      match literal " " rest with
      | None => mLine
      | Some rest =>
          let '(attribute, rest) := star wordOrDash rest in
          set_ssrcs mLine
            (Some (default [] (ssrcs mLine)
                   ++ [ {| ssrc_id := id; ssrc_attribute := attribute;
                           ssrc_value := literal ":" rest |} ]))
      end
  | None =>
      match literal "ssrc-group:" content with
      | None => mLine
      | Some rest =>
          let '(semantics, rest) := star tokenChar rest in
          match literal " " rest with
          | None => mLine
          | Some ids =>
              {| type := type mLine; ssrcs := ssrcs mLine;
                 ssrcGroups :=
                   Some (default [] (ssrcGroups mLine)
                         ++ [ {| group_semantics := semantics;
                                 group_ssrcs := toIntIfInt ids |} ]);
                 rids := rids mLine; simulcast := simulcast mLine;
                 simulcast_03 := simulcast_03 mLine;
                 mline_rest := mline_rest mLine |}
          end
      end
  end.

Definition onLast {A} (f : A → A) (l : list A) : list A :=
  match reverse l with
  | [] => []
  | last :: before => reverse before ++ [f last]
  end.

(** One line [<letter>=<content>]; any other piece of the text is skipped.
    An attribute goes to the section opened last. *)
Definition parseLine (session : Parsed) (line : string) : Parsed :=
  match line with
  | String kind (String "=" content) =>
      if Ascii.eqb kind "m"
      then set_media session (media session ++ [parseMedia content])
      else if Ascii.eqb kind "a"
      then set_media session (onLast (parseAttribute content) (media session))
      else if Ascii.eqb kind "v"
      then match star digit content with
           | (version, EmptyString) =>
               {| media := media session;
                  session_rest := setField "version" version (session_rest session) |}
           | _ => session
           end
      else if Ascii.eqb kind "s"
      then {| media := media session;
              session_rest := setField "name" content (session_rest session) |}
      else session
  | _ => session
  end.

(** [transform.parse]: the text is cut at carriage returns and line feeds. *)
Definition parse (sdp : string) : Parsed :=
  foldl parseLine {| media := []; session_rest := [] |}
        (split "010" sdp ≫= split "013").

Definition writeSsrc (source : SsrcEntry) : string :=
  "a=ssrc:" +:+ formatNumber (ssrc_id source) +:+ " " +:+ ssrc_attribute source
  +:+ match ssrc_value source with
      | Some value => ":" +:+ value
      | None => ""
      end.

Definition writeGroup (group : SsrcGroup) : string :=
  "a=ssrc-group:" +:+ group_semantics group +:+ " "
  +:+ match group_ssrcs group with
      | Text ssrcs => ssrcs
      | Numeric printed => printed
      end.

(** The lines of a section: the media line, then one line for each element
    of [ssrcs] and of [ssrcGroups], so none for an empty array. *)
Definition writeMedia (mLine : MLine) : list string :=
  ("m=" +:+ type mLine
   +:+ " " +:+ default "NaN" (formatNumber <$> field "port" (mline_rest mLine))
   +:+ " " +:+ default "undefined" (field "protocol" (mline_rest mLine))
   +:+ " " +:+ default "" (field "payloads" (mline_rest mLine)))
  :: (writeSsrc <$> default [] (ssrcs mLine))
  ++ (writeGroup <$> default [] (ssrcGroups mLine)).

(** [transform.write]: every line ends with a carriage return and a line
    feed. *)
Definition write (session : Parsed) : string :=
  join CRLF
    (("v=" +:+ default "0" (field "version" (session_rest session)))
     :: ("s=" +:+ default " " (field "name" (session_rest session)))
     :: (media session ≫= writeMedia))
  +:+ CRLF.

End transform.

(** A description whose video section has one ssrc line, of an id that its
    FID group does not list. *)
Definition stray_description : Description :=
  {| desc_type := "offer";
     sdp := join transform.CRLF
              [ "v=0"; "s=-";
                "m=video 9 UDP/TLS/RTP/SAVPF 96";
                "a=ssrc:3 cname:c";
                "a=ssrc-group:FID 1 2" ]
            +:+ transform.CRLF |}.

(** What the code returns for [stray_description]: the ssrc line is gone. *)
Definition stray_description_normal : Description :=
  {| desc_type := "offer";
     sdp := join transform.CRLF
              [ "v=0"; "s=-";
                "m=video 9 UDP/TLS/RTP/SAVPF 96";
                "a=ssrc-group:FID 1 2" ]
            +:+ transform.CRLF |}.

(** A description with an audio section and a simulcast video section whose
    ssrc lines are out of order. *)
Definition simulcast_description : Description :=
  {| desc_type := "offer";
     sdp := join transform.CRLF
              [ "v=0"; "s=-";
                "m=audio 9 UDP/TLS/RTP/SAVPF 111";
                "a=ssrc:7 cname:c";
                "m=video 9 UDP/TLS/RTP/SAVPF 96 97";
                "a=ssrc:14 msid:s v";
                "a=ssrc:11 msid:s v";
                "a=ssrc:12 msid:s v";
                "a=ssrc:11 cname:c";
                "a=ssrc:13 msid:s v";
                "a=ssrc-group:SIM 11 12 13";
                "a=ssrc-group:FID 11 14" ]
            +:+ transform.CRLF |}.

(** What the code returns for [simulcast_description]. *)
Definition simulcast_description_normal : Description :=
  {| desc_type := "offer";
     sdp := join transform.CRLF
              [ "v=0"; "s=-";
                "m=audio 9 UDP/TLS/RTP/SAVPF 111";
                "a=ssrc:7 cname:c";
                "m=video 9 UDP/TLS/RTP/SAVPF 96 97";
                "a=ssrc:11 msid:s v";
                "a=ssrc:11 cname:c";
                "a=ssrc:12 msid:s v";
                "a=ssrc:13 msid:s v";
                "a=ssrc:14 msid:s v";
                "a=ssrc-group:SIM 11 12 13";
                "a=ssrc-group:FID 11 14" ]
            +:+ transform.CRLF |}.

(** A description whose video section has one group, listing a single id:
    sdp-transform parses the ids of that group into a number. *)
Definition single_id_description : Description :=
  {| desc_type := "offer";
     sdp := join transform.CRLF
              [ "v=0"; "s=-";
                "m=video 9 UDP/TLS/RTP/SAVPF 96";
                "a=ssrc:1 cname:c";
                "a=ssrc-group:FID 1" ]
            +:+ transform.CRLF |}.

(** ** Sample collaborators *)

(** A [getLocalTracks] for the examples: the tracks in the map of local
    tracks, of the given kind when one is given. *)
Definition tracksOfKind (pc : TraceablePeerConnection) (mediaType : option string)
  : list JitsiLocalTrack :=
  let tracks := (map_to_list (localTracks pc)).*2 in
  match mediaType with
  | None => tracks
  | Some mt => filter (λ track, getType track = mt) tracks
  end.

Definition chrome : Browser :=
  {| isFirefox := false; isVersionGreaterThan := λ v, (v <? 120)%Z;
     usesSdpMungingForSimulcast := false; isWebKitBased := false;
     isChromiumBased := true; isReactNative := false |}.

Definition firefox : Browser :=
  {| isFirefox := true; isVersionGreaterThan := λ v, (v <? 115)%Z;
     usesSdpMungingForSimulcast := false; isWebKitBased := false;
     isChromiumBased := false; isReactNative := false |}.

Definition sample_bitrates : VideoBitrates :=
  {| low := 200000; standard := 500000; high := 1500000 |}.

Definition camera_stream : MediaStream := {| stream_id := "stream-cam" |}.

Definition camera_track_720 : JitsiLocalTrack :=
  {| rtcId := 1;
     getTrack := {| track_id := "cam-0"; kind := "video"; settings_height := Some 720%Z |};
     getTrackId := "cam-0";
     getType := MediaType.VIDEO;
     isVideoTrack := true;
     getVideoType := VideoType.CAMERA;
     getOriginalStream := Some camera_stream;
     _originalStream := None;
     getStreamId := Some "stream-cam";
     isMuted := false;
     getSourceName := None;
     conference := false |}.

Definition audio_track : JitsiLocalTrack :=
  {| rtcId := 2;
     getTrack := {| track_id := "mic-0"; kind := "audio"; settings_height := None |};
     getTrackId := "mic-0";
     getType := MediaType.AUDIO;
     isVideoTrack := false;
     getVideoType := "";
     getOriginalStream := Some {| stream_id := "stream-mic" |};
     _originalStream := None;
     getStreamId := Some "stream-mic";
     isMuted := false;
     getSourceName := None;
     conference := false |}.

Definition empty_connection : TraceablePeerConnection :=
  {| transceivers := []; localTracks := ∅; isSimulcastOn := true;
     isSharingLowFpsScreen := false; usesUnifiedPlan := true;
     desktopBitrate := None |}.

Definition sample_utils : TPCUtils :=
  {| pc := empty_connection; videoBitrates := sample_bitrates |}.

Definition camera_track_no_stream : JitsiLocalTrack :=
  {| rtcId := 1;
     getTrack := {| track_id := "cam-0"; kind := "video"; settings_height := Some 720%Z |};
     getTrackId := "cam-0";
     getType := MediaType.VIDEO;
     isVideoTrack := true;
     getVideoType := VideoType.CAMERA;
     getOriginalStream := None;
     _originalStream := None;
     getStreamId := None;
     isMuted := true;
     getSourceName := None;
     conference := false |}.

(** A transceiver as the answer to a remote offer leaves it when the session
    starts muted: nothing to send yet. *)
Definition recvonly_video : RTCRtpTransceiver :=
  {| receiver_kind := "video"; direction := RECVONLY;
     currentDirection := Some RECVONLY; sender_track := None;
     sender_streams := []; sender_encodings := [] |}.

Definition recvonly_audio : RTCRtpTransceiver :=
  {| receiver_kind := "audio"; direction := RECVONLY;
     currentDirection := Some RECVONLY; sender_track := None;
     sender_streams := []; sender_encodings := [] |}.

Definition muted_start_connection : TraceablePeerConnection :=
  {| transceivers := [recvonly_audio; recvonly_video]; localTracks := ∅;
     isSimulcastOn := true; isSharingLowFpsScreen := false;
     usesUnifiedPlan := true; desktopBitrate := None |}.

Definition muted_start_utils : TPCUtils :=
  {| pc := muted_start_connection; videoBitrates := sample_bitrates |}.

(** Stand-ins for the platform's [addTrack] and [addStream] in examples. *)
Definition no_addTrack (track : MediaStreamTrack) (ts : list RTCRtpTransceiver)
  : list RTCRtpTransceiver := ts.
Definition no_addStream (stream : MediaStream) (ts : list RTCRtpTransceiver)
  : list RTCRtpTransceiver := ts.

(** A presenter overlay is on: the track's [_originalStream] exists, and its
    id is not the id of the stream the track currently has. *)
Definition presenterOverlayActive (track : JitsiLocalTrack) : Prop :=
  ∃ original, _originalStream track = Some original
              ∧ Some (stream_id original) ≠ getStreamId track.

Definition desktop_track : JitsiLocalTrack :=
  {| rtcId := 3;
     getTrack := {| track_id := "screen-0"; kind := "video"; settings_height := Some 1080%Z |};
     getTrackId := "screen-0";
     getType := MediaType.VIDEO;
     isVideoTrack := true;
     getVideoType := VideoType.DESKTOP;
     getOriginalStream := Some {| stream_id := "stream-screen" |};
     _originalStream := Some {| stream_id := "stream-screen" |};
     getStreamId := Some "stream-screen";
     isMuted := false;
     getSourceName := None;
     conference := false |}.

Definition presenter_track : JitsiLocalTrack :=
  {| rtcId := 3;
     getTrack := {| track_id := "screen-0"; kind := "video"; settings_height := Some 1080%Z |};
     getTrackId := "screen-0";
     getType := MediaType.VIDEO;
     isVideoTrack := true;
     getVideoType := VideoType.DESKTOP;
     getOriginalStream := Some {| stream_id := "stream-composite" |};
     _originalStream := Some {| stream_id := "stream-screen" |};
     getStreamId := Some "stream-composite";
     isMuted := false;
     getSourceName := None;
     conference := false |}.

(** Low-fps screen sharing with [videoQuality.desktopBitrate] configured. *)
Definition lowfps_configured_utils : TPCUtils :=
  {| pc := {| transceivers := []; localTracks := ∅; isSimulcastOn := true;
              isSharingLowFpsScreen := true; usesUnifiedPlan := true;
              desktopBitrate := Some 1000000%Z |};
     videoBitrates := sample_bitrates |}.

(** Low-fps screen sharing without that option. *)
Definition lowfps_default_utils : TPCUtils :=
  {| pc := {| transceivers := []; localTracks := ∅; isSimulcastOn := true;
              isSharingLowFpsScreen := true; usesUnifiedPlan := true;
              desktopBitrate := None |};
     videoBitrates := sample_bitrates |}.

(** An offer with an audio section and a video section that advertises no
    rid and no simulcast attribute. *)
Definition plain_video_section : MLine :=
  {| type := "video"; ssrcs := None; ssrcGroups := None;
     rids := None; simulcast := None; simulcast_03 := None;
     mline_rest := [("mid", "1")] |}.

Definition plain_offer_parsed : Parsed :=
  {| media := [audio_section; plain_video_section]; session_rest := [] |}.

Definition plain_parse (text : string) : Parsed := plain_offer_parsed.

(** A writer that shows the rid ids and the simulcast value of the video
    sections. *)
Definition rid_summary (p : Parsed) : string :=
  join "|"
    ((λ m, String.append (join "," (rid_id <$> default [] (rids m)))
             (String.append "/" (default "" (simulcast_value <$> simulcast_03 m))))
       <$> filter (λ m, type m = "video") (media p)).

Definition sending (kind_ : string) (id : string) : RTCRtpTransceiver :=
  {| receiver_kind := kind_; direction := SENDRECV;
     currentDirection := Some SENDRECV;
     sender_track := Some {| track_id := id; kind := kind_; settings_height := None |};
     sender_streams := []; sender_encodings := [] |}.

(** The placeholder m-line of the last negotiation: receive-only, negotiated
    inactive. *)
Definition placeholder_video : RTCRtpTransceiver :=
  {| receiver_kind := "video"; direction := RECVONLY;
     currentDirection := Some INACTIVE; sender_track := None;
     sender_streams := []; sender_encodings := [] |}.

Definition second_camera_track : JitsiLocalTrack :=
  {| rtcId := 4;
     getTrack := {| track_id := "cam-1"; kind := "video"; settings_height := Some 720%Z |};
     getTrackId := "cam-1";
     getType := MediaType.VIDEO;
     isVideoTrack := true;
     getVideoType := VideoType.CAMERA;
     getOriginalStream := Some {| stream_id := "stream-cam-1" |};
     _originalStream := None;
     getStreamId := Some "stream-cam-1";
     isMuted := false;
     getSourceName := Some "abcd1234-v1";
     conference := false |}.

(** The first camera of an endpoint, named with index 0. *)
Definition first_camera_track : JitsiLocalTrack :=
  {| rtcId := 1;
     getTrack := {| track_id := "cam-0"; kind := "video"; settings_height := Some 720%Z |};
     getTrackId := "cam-0";
     getType := MediaType.VIDEO;
     isVideoTrack := true;
     getVideoType := VideoType.CAMERA;
     getOriginalStream := Some camera_stream;
     _originalStream := None;
     getStreamId := Some "stream-cam";
     isMuted := false;
     getSourceName := Some "abcd1234-v0";
     conference := true |}.

(** One camera is sent; a placeholder section waits for a second source. *)
Definition one_camera_utils : TPCUtils :=
  {| pc := {| transceivers := [sending "audio" "mic-0"; sending "video" "cam-0";
                               recvonly_video; placeholder_video];
              localTracks := {[ 1%Z := camera_track_720 ]};
              isSimulcastOn := true; isSharingLowFpsScreen := false;
              usesUnifiedPlan := true; desktopBitrate := None |};
     videoBitrates := sample_bitrates |}.

(** Two cameras are sent, with a receive-only video section between them. *)
Definition two_camera_utils : TPCUtils :=
  {| pc := {| transceivers := [sending "audio" "mic-0"; sending "video" "cam-0";
                               recvonly_video; sending "video" "cam-1"];
              localTracks := {[ 1%Z := camera_track_720 ]};
              isSimulcastOn := true; isSharingLowFpsScreen := false;
              usesUnifiedPlan := true; desktopBitrate := None |};
     videoBitrates := sample_bitrates |}.

(** The session started video-muted, then a remote source was added: the
    first video section is receive-only, a later one sends. *)
Definition recvonly_first_utils : TPCUtils :=
  {| pc := {| transceivers := [recvonly_video; sending "video" "cam-9"];
              localTracks := ∅;
              isSimulcastOn := true; isSharingLowFpsScreen := false;
              usesUnifiedPlan := true; desktopBitrate := None |};
     videoBitrates := sample_bitrates |}.

(** ** Vocabulary of the further properties *)

(** A section on which the reordering throws: not audio, with groups of
    which one lists its ids as a number, or which list at least one id while
    the section has no ssrc line. *)
Definition reorderingThrows (m : MLine) : Prop :=
  type m ≠ "audio"
  ∧ ∃ groups, ssrcGroups m = Some groups
              ∧ (Exists (λ group, ¬ listsText group) groups
                 ∨ (referencedIds groups ≠ [] ∧ ssrcs m = None)).

(** The character occurs in the text. *)
Fixpoint occurs (c : ascii) (s : string) : bool :=
  match s with
  | EmptyString => false
  | String c' s' => Ascii.eqb c' c || occurs c s'
  end.

(** A section advertises simulcast: it has rids and a simulcast attribute
    of either form (the test of [insertUnifiedPlanSimulcastReceive]). *)
Definition advertisesSimulcast (m : MLine) : Prop :=
  is_Some (rids m) ∧ (is_Some (simulcast_03 m) ∨ is_Some (simulcast m)).

(** A section stripped of its rid and simulcast attributes. *)
Definition withoutSimulcast (m : MLine) : MLine :=
  set_simulcast_03 (set_simulcast (set_rids m None) None) None.

(** A video section with one FID group over a primary and an RTX ssrc, the
    RTX lines coming first. *)
Definition fid_section : MLine :=
  {| type := "video";
     ssrcs := Some [ {| ssrc_id := "2002"; ssrc_attribute := "cname"; ssrc_value := Some "c" |};
                     {| ssrc_id := "1001"; ssrc_attribute := "cname"; ssrc_value := Some "c" |};
                     {| ssrc_id := "2002"; ssrc_attribute := "msid"; ssrc_value := Some "s v" |};
                     {| ssrc_id := "1001"; ssrc_attribute := "msid"; ssrc_value := Some "s v" |} ];
     ssrcGroups := Some [ {| group_semantics := "FID"; group_ssrcs := Text "1001 2002" |} ];
     rids := None; simulcast := None; simulcast_03 := None; mline_rest := [] |}.

(** An offer whose two video sections both advertise simulcast. *)
Definition simulcast_video_section : MLine :=
  {| type := "video"; ssrcs := None; ssrcGroups := None;
     rids := Some [ {| rid_id := "1"; rid_direction := "recv" |} ];
     simulcast := None;
     simulcast_03 := Some {| simulcast_value := "recv rid=1" |};
     mline_rest := [] |}.

Definition double_simulcast_parsed : Parsed :=
  {| media := [audio_section; simulcast_video_section; simulcast_video_section];
     session_rest := [] |}.

(** Low-fps screen sharing in unified plan, and the same track sent in
    plan B without low-fps sharing. *)
Definition planb_utils : TPCUtils :=
  {| pc := {| transceivers := []; localTracks := ∅; isSimulcastOn := true;
              isSharingLowFpsScreen := false; usesUnifiedPlan := false;
              desktopBitrate := None |};
     videoBitrates := sample_bitrates |}.

(** A connection sending a microphone and the 720p camera. *)
Definition camera_sender : RTCRtpTransceiver :=
  {| receiver_kind := "video"; direction := SENDRECV;
     currentDirection := Some SENDRECV;
     sender_track := Some (getTrack camera_track_720);
     sender_streams := [Some camera_stream]; sender_encodings := [] |}.

Definition sending_utils : TPCUtils :=
  {| pc := {| transceivers := [sending "audio" "mic-0"; camera_sender; recvonly_video];
              localTracks := {[ 1%Z := camera_track_720 ]};
              isSimulcastOn := true; isSharingLowFpsScreen := false;
              usesUnifiedPlan := true; desktopBitrate := None |};
     videoBitrates := sample_bitrates |}.

(** The camera a user switches to. *)
Definition other_camera_track : JitsiLocalTrack :=
  {| rtcId := 5;
     getTrack := {| track_id := "cam-usb"; kind := "video"; settings_height := Some 480%Z |};
     getTrackId := "cam-usb";
     getType := MediaType.VIDEO;
     isVideoTrack := true;
     getVideoType := VideoType.CAMERA;
     getOriginalStream := Some {| stream_id := "stream-usb" |};
     _originalStream := None;
     getStreamId := Some "stream-usb";
     isMuted := false;
     getSourceName := None;
     conference := false |}.

(** A stand-in for the platform's [addStream]: the camera track of the
    stream is attached to the sender of the transceiver at position 1. *)
Definition attach_camera (stream : MediaStream) (ts : list RTCRtpTransceiver)
  : list RTCRtpTransceiver :=
  alter (λ t, sender_replaceTrack t (Some (getTrack camera_track_720))) 1 ts.

(** A camera whose source name has no dash. *)
Definition unnamed_camera_track : JitsiLocalTrack :=
  {| rtcId := 6;
     getTrack := {| track_id := "cam-0"; kind := "video"; settings_height := Some 720%Z |};
     getTrackId := "cam-0";
     getType := MediaType.VIDEO;
     isVideoTrack := true;
     getVideoType := VideoType.CAMERA;
     getOriginalStream := Some camera_stream;
     _originalStream := None;
     getStreamId := Some "stream-cam";
     isMuted := true;
     getSourceName := Some "camera";
     conference := true |}.

(** The loop of [setMediaTransferActive] as one pass over the transceivers:
    [idx] counts the transceivers of the kind met so far, [dir] gives the
    direction for each count.  Used to reason about the loop. *)
Fixpoint transferPass (mediaType : string) (dir : nat → MediaDirection) (idx : nat)
    (ts : list RTCRtpTransceiver) : list RTCRtpTransceiver :=
  match ts with
  | [] => []
  | t :: ts' =>
      if decide (receiver_kind t = mediaType)
      then set_direction t (dir idx) :: transferPass mediaType dir (S idx) ts'
      else t :: transferPass mediaType dir idx ts'
  end.

(** The [getLocalTracks] of a connection does not look at its
    transceivers. *)
Definition ignoresTransceivers
    (getLocalTracks : TraceablePeerConnection → option string → list JitsiLocalTrack)
  : Prop :=
  ∀ pc ts mediaType,
    getLocalTracks (set_transceivers pc ts) mediaType = getLocalTracks pc mediaType.

(** A transceiver whose transfer is suspended, and a connection with an
    audio and two video sections in that state. *)
Definition inactive (kind_ : string) : RTCRtpTransceiver :=
  {| receiver_kind := kind_; direction := INACTIVE;
     currentDirection := Some INACTIVE; sender_track := None;
     sender_streams := []; sender_encodings := [] |}.

Definition suspended_utils : TPCUtils :=
  {| pc := {| transceivers := [inactive "audio"; inactive "video"; inactive "video"];
              localTracks := {[ 1%Z := camera_track_720 ]};
              isSimulcastOn := true; isSharingLowFpsScreen := false;
              usesUnifiedPlan := true; desktopBitrate := None |};
     videoBitrates := sample_bitrates |}.

(** A camera whose platform track reports no height. *)
Definition camera_track_no_height : JitsiLocalTrack :=
  {| rtcId := 7;
     getTrack := {| track_id := "cam-0"; kind := "video"; settings_height := None |};
     getTrackId := "cam-0";
     getType := MediaType.VIDEO;
     isVideoTrack := true;
     getVideoType := VideoType.CAMERA;
     getOriginalStream := Some camera_stream;
     _originalStream := None;
     getStreamId := Some "stream-cam";
     isMuted := false;
     getSourceName := None;
     conference := false |}.

(** * Properties *)

(** ** JavaScript helpers on examples *)

Example split_blank : split " " "11 22  33" = ["11"; "22"; ""; "33"].
Proof. reflexivity. Qed.

Example split_source_name : split "-" "abcd1234-v1" = ["abcd1234"; "v1"].
Proof. reflexivity. Qed.

Example split_without_dash : split "-" "camera" !! 1 = None.
Proof. reflexivity. Qed.

Example collect_sim_fid :
  collectSsrcs [ {| group_semantics := "SIM"; group_ssrcs := Text "1 2 3" |};
                 {| group_semantics := "FID"; group_ssrcs := Text "1 4" |};
                 {| group_semantics := "FID"; group_ssrcs := Text " 2  5" |} ]
  = Normal ["1"; "2"; "3"; "4"; "5"].
Proof. vm_compute. reflexivity. Qed.

(** ** Completions *)

Lemma bind_Normal_inv {A B} (f : A → Completion B) (c : Completion A) (b : B) :
  c ≫= f = Normal b → ∃ a, c = Normal a ∧ f a = Normal b.
Proof. destruct c as [a|e]; [eauto | discriminate]. Qed.

Lemma mapC_Normal {A B} (f : A → Completion B) (l : list A) (k : list B) :
  mapC f l = Normal k ↔ Forall2 (λ x y, f x = Normal y) l k.
Proof.
  revert k. induction l as [|x l IH]; intros k; simpl.
  - split.
    + intros [= <-]. constructor.
    + intros H. inversion H. reflexivity.
  - split.
    + intros H. apply bind_Normal_inv in H as (y & Hy & H).
      apply bind_Normal_inv in H as (ys & Hys & [= <-]).
      constructor; [assumption | by apply IH].
    + intros H. inversion H as [|? y ? ys Hy Hys]; subst.
      apply IH in Hys. cbn. rewrite Hy. cbn. rewrite Hys. reflexivity.
Qed.

Lemma mapC_total {A B} (f : A → Completion B) (l : list A) :
  Forall (λ x, ∃ y, f x = Normal y) l → ∃ k, mapC f l = Normal k.
Proof.
  induction 1 as [|x l [y Hy] _ [k Hk]]; simpl.
  - by exists [].
  - exists (y :: k). cbn. rewrite Hy. cbn. rewrite Hk. reflexivity.
Qed.

(** ** The set of ssrc ids *)

Lemma StringSet_add_elem (s : StringSet.t) (x y : string) :
  y ∈ StringSet.add s x ↔ y ∈ s ∨ y = x.
Proof.
  unfold StringSet.add. case_decide; [|rewrite elem_of_app, list_elem_of_singleton; tauto].
  split; [tauto | intros [?| ->]; assumption].
Qed.

Lemma StringSet_add_NoDup (s : StringSet.t) (x : string) :
  NoDup s → NoDup (StringSet.add s x).
Proof.
  intros Hs. unfold StringSet.add. case_decide; [assumption|].
  apply NoDup_app. repeat split; [assumption | | apply NoDup_singleton].
  intros y Hy ->%list_elem_of_singleton. contradiction.
Qed.

Lemma StringSet_fill_elem (ids : list string) (s : StringSet.t) (y : string) :
  y ∈ foldl StringSet.add s ids ↔ y ∈ s ∨ y ∈ ids.
Proof.
  revert s. induction ids as [|x ids IH]; intros s; simpl.
  - rewrite elem_of_nil. tauto.
  - rewrite IH, StringSet_add_elem, elem_of_cons. tauto.
Qed.

Lemma StringSet_fill_NoDup (ids : list string) (s : StringSet.t) :
  NoDup s → NoDup (foldl StringSet.add s ids).
Proof.
  revert s. induction ids as [|x ids IH]; intros s Hs; simpl; [assumption|].
  apply IH, StringSet_add_NoDup, Hs.
Qed.

Lemma collectedIds_fill (groups : list SsrcGroup) :
  collectedIds groups = foldl StringSet.add StringSet.empty (referencedIds groups).
Proof.
  unfold collectedIds, referencedIds. generalize StringSet.empty.
  induction groups as [|g groups IH]; intros s; simpl; [reflexivity|].
  rewrite IH, foldl_app. reflexivity.
Qed.

Lemma collectedIds_elem (groups : list SsrcGroup) (s : string) :
  s ∈ collectedIds groups ↔ s ∈ referencedIds groups.
Proof.
  rewrite collectedIds_fill, StringSet_fill_elem. unfold StringSet.empty.
  rewrite elem_of_nil. tauto.
Qed.

Lemma collectedIds_NoDup (groups : list SsrcGroup) : NoDup (collectedIds groups).
Proof. rewrite collectedIds_fill. apply StringSet_fill_NoDup, NoDup_nil_2. Qed.

(** The loop over the groups: it gives the set when every group lists its
    ids as a string, and throws when one lists a number. *)
Lemma collectSsrcs_cases (groups : list SsrcGroup) :
  (Forall listsText groups ∧ collectSsrcs groups = Normal (collectedIds groups))
  ∨ (Exists (λ g, ¬ listsText g) groups ∧ collectSsrcs groups = Throw TypeError).
Proof.
  unfold collectSsrcs, collectedIds. generalize StringSet.empty.
  induction groups as [|g groups IH]; intros set; simpl.
  - left. by split.
  - unfold groupMembers, groupTokens at 1 2. destruct (group_ssrcs g) as [ssrcs|n] eqn:Hg.
    + cbn. destruct (IH (foldl StringSet.add set
                           (filter (λ s, s ≠ "") (split " " ssrcs))))
        as [[Hall Hrun]|[Hex Hrun]].
      * left. split; [|exact Hrun]. constructor; [by exists ssrcs | exact Hall].
      * right. split; [by right | exact Hrun].
    + right. split; [|reflexivity]. left. intros [ssrcs Hs]. congruence.
Qed.

Lemma collectSsrcs_text (groups : list SsrcGroup) :
  Forall listsText groups → collectSsrcs groups = Normal (collectedIds groups).
Proof.
  intros Hall. destruct (collectSsrcs_cases groups) as [[_ Hrun]|[Hex _]];
    [exact Hrun|].
  apply Exists_exists in Hex as (g & Hg & Hn). rewrite Forall_forall in Hall.
  destruct Hn. by apply Hall.
Qed.

Lemma collectSsrcs_numeric (groups : list SsrcGroup) :
  Exists (λ g, ¬ listsText g) groups → collectSsrcs groups = Throw TypeError.
Proof.
  intros Hex. destruct (collectSsrcs_cases groups) as [[Hall _]|[_ Hrun]];
    [|exact Hrun].
  apply Exists_exists in Hex as (g & Hg & Hn). rewrite Forall_forall in Hall.
  destruct Hn. by apply Hall.
Qed.

(** ** Position of first appearance *)

Lemma firstIndex_lt (s : string) (ids : list string) :
  s ∈ ids → firstIndex s ids < length ids.
Proof.
  induction ids as [|t ids IH]; simpl; [by intros ?%elem_of_nil|].
  intros Hin. case_decide; [lia|].
  apply elem_of_cons in Hin as [->|Hin]; [congruence|]. specialize (IH Hin). lia.
Qed.

Lemma firstIndex_app_l (s : string) (ids more : list string) :
  s ∈ ids → firstIndex s (ids ++ more) = firstIndex s ids.
Proof.
  induction ids as [|t ids IH]; simpl; [by intros ?%elem_of_nil|].
  intros Hin. case_decide; [reflexivity|].
  apply elem_of_cons in Hin as [->|Hin]; [congruence|]. by rewrite IH.
Qed.

Lemma firstIndex_app_r (s : string) (ids more : list string) :
  s ∉ ids → firstIndex s (ids ++ more) = length ids + firstIndex s more.
Proof.
  induction ids as [|t ids IH]; simpl; [reflexivity|].
  intros Hin. apply not_elem_of_cons in Hin as [Hne Hin].
  case_decide; [congruence|]. by rewrite IH.
Qed.

Lemma StronglySorted_on {A} (R1 R2 : relation A) (l : list A) :
  (∀ x y, x ∈ l → y ∈ l → R1 x y → R2 x y) →
  StronglySorted R1 l → StronglySorted R2 l.
Proof.
  induction l as [|a l IH]; intros HR Hs; [constructor|].
  apply StronglySorted_cons in Hs as [Hall Hs]. apply StronglySorted_cons. split.
  - rewrite Forall_forall in Hall |- *. intros y Hy.
    apply HR; [left | by right | by apply Hall].
  - apply IH; [|assumption]. intros x y Hx Hy. apply HR; by right.
Qed.

(** The set lists the ids by strictly increasing position of first
    appearance. *)
Lemma StringSet_fill_sorted (ids : list string) :
  StronglySorted (λ a b, firstIndex a ids < firstIndex b ids)
                 (foldl StringSet.add StringSet.empty ids).
Proof.
  induction ids as [|x ids IH] using rev_ind; [constructor|].
  rewrite foldl_snoc. unfold StringSet.add at 1. case_decide as Hx.
  - eapply StronglySorted_on; [|exact IH]. intros a b Ha Hb Hab.
    apply StringSet_fill_elem in Ha as [Ha|Ha]; [by apply elem_of_nil in Ha|].
    apply StringSet_fill_elem in Hb as [Hb|Hb]; [by apply elem_of_nil in Hb|].
    by rewrite !firstIndex_app_l.
  - assert (x ∉ ids) as Hx'.
    { intros Hin. apply Hx, StringSet_fill_elem. by right. }
    apply StronglySorted_app. split_and!.
    + intros a b Ha ->%list_elem_of_singleton.
      apply StringSet_fill_elem in Ha as [Ha|Ha]; [by apply elem_of_nil in Ha|].
      rewrite firstIndex_app_l, firstIndex_app_r by assumption.
      pose proof (firstIndex_lt a ids Ha). lia.
    + eapply StronglySorted_on; [|exact IH]. intros a b Ha Hb Hab.
      apply StringSet_fill_elem in Ha as [Ha|Ha]; [by apply elem_of_nil in Ha|].
      apply StringSet_fill_elem in Hb as [Hb|Hb]; [by apply elem_of_nil in Hb|].
      by rewrite !firstIndex_app_l.
    + repeat constructor.
Qed.

(** ** The rebuilt list of ssrc lines *)

Lemma same_id_sorted (rank : string → nat) (s : string) (l : list SsrcEntry) :
  StronglySorted (λ e1 e2, rank (ssrc_id e1) ≤ rank (ssrc_id e2))
                 (filter (λ source, ssrc_id source = s) l).
Proof.
  induction l as [|e l IHl]; [constructor|].
  rewrite filter_cons. case_decide as He; [|exact IHl].
  apply StronglySorted_cons. split; [|exact IHl].
  apply Forall_forall. intros e' [-> _]%list_elem_of_filter. by rewrite He.
Qed.

Section Rebuild.

Variable all : list SsrcEntry.

Local Abbreviation block s := (filter (λ source, ssrc_id source = s) all).
Local Abbreviation blocks := (λ s, block s).

Lemma rebuild_split (s : string) (ids : list string) :
  s ∉ ids →
  filter (λ e, ssrc_id e ∈ s :: ids) all
  ≡ₚ block s ++ filter (λ e, ssrc_id e ∈ ids) all.
Proof.
  intros Hs. induction all as [|e l IH]; [reflexivity|].
  rewrite !filter_cons. destruct (decide (ssrc_id e = s)) as [He|He].
  - rewrite decide_True by (rewrite He; left).
    rewrite (decide_False (P := ssrc_id e ∈ ids)) by (by rewrite He).
    simpl. by f_equiv.
  - destruct (decide (ssrc_id e ∈ ids)) as [Hin|Hin].
    + rewrite decide_True by (by right).
      rewrite IH. apply Permutation_middle.
    + rewrite decide_False; [exact IH|].
      intros [?|?]%elem_of_cons; contradiction.
Qed.

Lemma rebuild_Permutation (ids : list string) :
  NoDup ids → ids ≫= blocks ≡ₚ filter (λ e, ssrc_id e ∈ ids) all.
Proof.
  induction 1 as [|s ids Hs Hids IH].
  - simpl. symmetry. apply Permutation_nil_r.
    induction all as [|e l IHl]; [reflexivity|].
    rewrite filter_cons_False; [exact IHl | apply not_elem_of_nil].
  - rewrite bind_cons, IH. symmetry. by apply rebuild_split.
Qed.

Lemma block_filter_eq (s s' : string) :
  filter (λ e, ssrc_id e = s) (block s') = if decide (s = s') then block s else [].
Proof.
  rewrite list_filter_filter. case_decide as Hs.
  - subst. apply list_filter_iff. tauto.
  - induction all as [|e l IH]; [reflexivity|].
    rewrite filter_cons_False; [exact IH | intros [? ?]; congruence].
Qed.

Lemma rebuild_stable (s : string) (ids : list string) :
  NoDup ids →
  filter (λ e, ssrc_id e = s) (ids ≫= blocks)
  = if decide (s ∈ ids) then block s else [].
Proof.
  induction 1 as [|s' ids Hs Hids IH]; [by rewrite decide_False by apply not_elem_of_nil|].
  rewrite bind_cons, filter_app, IH, block_filter_eq.
  destruct (decide (s = s')) as [->|Hne].
  - rewrite decide_False by assumption. rewrite decide_True by left.
    apply app_nil_r.
  - simpl. destruct (decide (s ∈ ids)) as [Hin|Hin].
    + by rewrite decide_True by (by right).
    + rewrite decide_False; [reflexivity|].
      intros [?|?]%elem_of_cons; contradiction.
Qed.

Lemma rebuild_elem (e : SsrcEntry) (ids : list string) :
  e ∈ ids ≫= blocks ↔ ssrc_id e ∈ ids ∧ e ∈ all.
Proof.
  rewrite list_elem_of_bind. split.
  - intros (s & [-> He]%list_elem_of_filter & Hs). tauto.
  - intros [Hs He]. exists (ssrc_id e). by rewrite list_elem_of_filter.
Qed.

Lemma rebuild_sorted (rank : string → nat) (ids : list string) :
  StronglySorted (λ a b, rank a < rank b) ids →
  StronglySorted (λ e1 e2, rank (ssrc_id e1) ≤ rank (ssrc_id e2)) (ids ≫= blocks).
Proof.
  induction 1 as [|s ids Hids IH Hall]; [constructor|].
  rewrite bind_cons. apply StronglySorted_app. split_and!.
  - intros e1 e2 [-> _]%list_elem_of_filter [Hin _]%rebuild_elem.
    rewrite Forall_forall in Hall. specialize (Hall _ Hin). lia.
  - apply same_id_sorted.
  - exact IH.
Qed.

End Rebuild.

(** ** The callback on one section *)

Lemma foldC_append {A B} (f : list A → B → Completion (list A)) (g : B → list A)
    (l : list B) (acc : list A) :
  (∀ acc x, f acc x = Normal (acc ++ g x)) →
  foldC f acc l = Normal (acc ++ l ≫= g).
Proof.
  intros Hf. revert acc. induction l as [|x l IH]; intros acc; simpl.
  - by rewrite app_nil_r.
  - rewrite Hf. cbn. rewrite IH, <- app_assoc. reflexivity.
Qed.

Lemma foldC_throw {A B} (f : A → B → Completion A) (e : Error) (l : list B) (acc : A) :
  (∀ acc x, f acc x = Throw e) →
  foldC f acc l = match l with [] => Normal acc | _ :: _ => Throw e end.
Proof. intros Hf. destruct l; simpl; [reflexivity|]. by rewrite Hf. Qed.

Lemma classic_passes (m : MLine) : passesThrough m ∨ ¬ passesThrough m.
Proof.
  unfold passesThrough. destruct (decide (type m = "audio")) as [|Ht]; [tauto|].
  destruct (ssrcGroups m) as [[|g gs]|]; [tauto| |tauto].
  right. intros [?|[?|?]]; congruence.
Qed.

Lemma list_bind_ext_in {A B} (f g : A → list B) (l : list A) :
  (∀ x, x ∈ l → f x = g x) → l ≫= f = l ≫= g.
Proof.
  induction l as [|x l IH]; intros Hfg; [reflexivity|].
  rewrite !bind_cons, IH, Hfg; [reflexivity | left | intros; apply Hfg; by right].
Qed.

Lemma reorderSsrcs_passesThrough (m : MLine) :
  passesThrough m → reorderSsrcs m = Normal m.
Proof.
  unfold reorderSsrcs. intros [H|[H|H]].
  - by rewrite decide_True.
  - case_decide; [reflexivity|]. by rewrite H.
  - case_decide; [reflexivity|]. by rewrite H.
Qed.

Lemma reorderSsrcs_run (m : MLine) (groups : list SsrcGroup) :
  type m ≠ "audio" → ssrcGroups m = Some groups → groups ≠ [] →
  reorderSsrcs m
  = (ids ← collectSsrcs groups;
     reorderedSsrcs ←
       foldC (λ reorderedSsrcs ssrc,
                match ssrcs m with
                | None => Throw TypeError
                | Some all =>
                    let sources := filter (λ source, ssrc_id source = ssrc) all in
                    Normal (reorderedSsrcs ++ sources)
                end)
             [] ids;
     mret (set_ssrcs m (Some reorderedSsrcs))).
Proof.
  intros Ht Hg Hne. unfold reorderSsrcs. rewrite decide_False by assumption.
  rewrite Hg. by destruct groups.
Qed.

Lemma reorderSsrcs_grouped (m : MLine) (groups : list SsrcGroup) (all : list SsrcEntry) :
  type m ≠ "audio" → ssrcGroups m = Some groups → groups ≠ [] →
  Forall listsText groups →
  ssrcs m = Some all →
  reorderSsrcs m
  = Normal (set_ssrcs m
      (Some (collectedIds groups ≫= λ s, filter (λ source, ssrc_id source = s) all))).
Proof.
  intros Ht Hg Hne Htext Hall.
  rewrite (reorderSsrcs_run m groups Ht Hg Hne), (collectSsrcs_text groups Htext).
  cbn. erewrite foldC_append; [reflexivity|].
  intros acc s. by rewrite Hall.
Qed.

Lemma filter_all {A} (P : A → Prop) `{∀ x, Decision (P x)} (l : list A) :
  Forall P l → filter P l = l.
Proof.
  induction 1 as [|x l Hx _ IH]; [reflexivity|].
  by rewrite filter_cons_True, IH.
Qed.

Lemma ssrcLines_set (m : MLine) (l : list SsrcEntry) :
  ssrcLines (set_ssrcs m (Some l)) = l.
Proof. reflexivity. Qed.

(** The result of the callback on a section it rewrites. *)
Lemma reorderSsrcs_grouped_inv (m m' : MLine) :
  reorderSsrcs m = Normal m' → ¬ passesThrough m →
  ∃ groups,
    type m ≠ "audio" ∧ ssrcGroups m = Some groups ∧ groups ≠ []
    ∧ Forall listsText groups
    ∧ m' = set_ssrcs m
             (Some (collectedIds groups
                      ≫= λ s, filter (λ source, ssrc_id source = s) (ssrcLines m))).
Proof.
  intros Hrun Hp.
  assert (type m ≠ "audio") as Ht by (intros ?; apply Hp; by left).
  destruct (ssrcGroups m) as [groups|] eqn:Hg; [|exfalso; apply Hp; right; by left].
  assert (groups ≠ []) as Hne by (intros ->; apply Hp; right; by right).
  exists groups.
  destruct (collectSsrcs_cases groups) as [[Htext Hids]|[_ Hthrow]].
  2:{ rewrite (reorderSsrcs_run m groups Ht Hg Hne), Hthrow in Hrun. discriminate. }
  split_and!; try done.
  unfold ssrcLines. destruct (ssrcs m) as [all|] eqn:Hs.
  - rewrite (reorderSsrcs_grouped m groups all) in Hrun by assumption.
    simpl. congruence.
  - rewrite (reorderSsrcs_run m groups Ht Hg Hne), Hids in Hrun. cbn in Hrun.
    erewrite (foldC_throw _ TypeError) in Hrun; [|intros acc s; by rewrite Hs].
    destruct (collectedIds groups); [|discriminate].
    injection Hrun as <-. reflexivity.
Qed.

(** What a normal return of the callback says of the section. *)
Lemma reorderSsrcs_spec (m m' : MLine) :
  reorderSsrcs m = Normal m' →
  (passesThrough m → m' = m)
  ∧ (¬ passesThrough m →
       ∃ groups,
         ssrcGroups m = Some groups
         ∧ m' = set_ssrcs m (Some (ssrcLines m'))
         ∧ ssrcLines m'
             ≡ₚ filter (λ e, ssrc_id e ∈ referencedIds groups) (ssrcLines m)
         ∧ orderedByFirstAppearance (referencedIds groups) (ssrcLines m')
         ∧ (∀ s, s ∈ referencedIds groups →
                 filter (λ e, ssrc_id e = s) (ssrcLines m')
                 = filter (λ e, ssrc_id e = s) (ssrcLines m))).
Proof.
  intros Hrun. split.
  - intros Hp. rewrite (reorderSsrcs_passesThrough m Hp) in Hrun. congruence.
  - intros Hp.
    destruct (reorderSsrcs_grouped_inv m m' Hrun Hp)
      as (groups & Ht & Hg & Hne & _ & ->).
    exists groups. split; [assumption|].
    rewrite !ssrcLines_set. split_and!.
    + reflexivity.
    + rewrite rebuild_Permutation by apply collectedIds_NoDup.
      erewrite list_filter_iff; [reflexivity|].
      intros e. apply collectedIds_elem.
    + apply (rebuild_sorted (ssrcLines m) (λ s, firstIndex s (referencedIds groups))).
      rewrite collectedIds_fill. apply StringSet_fill_sorted.
    + intros s Hs. rewrite rebuild_stable by apply collectedIds_NoDup.
      by rewrite decide_True by (by apply collectedIds_elem).
Qed.

(** Running the callback on its own result changes nothing. *)
Lemma reorderSsrcs_idempotent (m m' : MLine) :
  reorderSsrcs m = Normal m' → reorderSsrcs m' = Normal m'.
Proof.
  intros Hrun. destruct (classic_passes m) as [Hp|Hp].
  - rewrite (reorderSsrcs_passesThrough m Hp) in Hrun.
    injection Hrun as <-. by apply reorderSsrcs_passesThrough.
  - destruct (reorderSsrcs_grouped_inv m m' Hrun Hp)
      as (groups & Ht & Hg & Hne & Htext & ->).
    erewrite reorderSsrcs_grouped;
      [|exact Ht|exact Hg|exact Hne|exact Htext|reflexivity].
    unfold set_ssrcs at 1 3. simpl. do 3 f_equal.
    apply list_bind_ext_in. intros s Hs.
    rewrite rebuild_stable by apply collectedIds_NoDup.
    by rewrite decide_True.
Qed.

Lemma reorderSsrcs_total (m : MLine) :
  (¬ passesThrough m → reorderable m) → ∃ m', reorderSsrcs m = Normal m'.
Proof.
  intros Hs. destruct (classic_passes m) as [Hp|Hp].
  - exists m. by apply reorderSsrcs_passesThrough.
  - destruct (Hs Hp) as [[all Hall] Htext].
    assert (type m ≠ "audio") as Ht by (intros ?; apply Hp; by left).
    destruct (ssrcGroups m) as [groups|] eqn:Hg; [|exfalso; apply Hp; right; by left].
    assert (groups ≠ []) as Hne by (intros ->; apply Hp; right; by right).
    eexists. apply (reorderSsrcs_grouped m groups all); auto.
Qed.

(** ** ensureCorrectOrderOfSsrcs on a description *)

(** C1 (as amended).  When every section that is not audio and has groups
    has ssrc lines, and groups that list their ids as a string, the call
    returns a description of the same type whose text is written from the
    parsed input with its sections replaced one for one.  An audio section
    and a section without ssrc-groups come back unchanged.  Of any
    other section only the ssrc lines change: they are, as a multiset, the
    input lines whose id some group lists (all the input lines when every
    id is listed); they are ordered by where their id first appears in the
    group lines; and the lines of one listed id keep their order. *)
Theorem ensureCorrectOrderOfSsrcs_reorders
    (parse : string → Parsed) (write : Parsed → string) (description : Description) :
  Forall (λ m, ¬ passesThrough m → reorderable m)
         (media (parse (sdp description))) →
  ∃ media',
    ensureCorrectOrderOfSsrcs parse write description
    = Normal {| desc_type := desc_type description;
                sdp := write (set_media (parse (sdp description)) media') |}
    ∧ Forall2
        (λ m m',
           (passesThrough m → m' = m)
           ∧ (¬ passesThrough m →
                ∃ groups,
                  ssrcGroups m = Some groups
                  ∧ m' = set_ssrcs m (Some (ssrcLines m'))
                  ∧ ssrcLines m'
                      ≡ₚ filter (λ e, ssrc_id e ∈ referencedIds groups) (ssrcLines m)
                  ∧ (Forall (λ e, ssrc_id e ∈ referencedIds groups) (ssrcLines m) →
                     ssrcLines m' ≡ₚ ssrcLines m)
                  ∧ orderedByFirstAppearance (referencedIds groups) (ssrcLines m')
                  ∧ (∀ s, s ∈ referencedIds groups →
                          filter (λ e, ssrc_id e = s) (ssrcLines m')
                          = filter (λ e, ssrc_id e = s) (ssrcLines m))))
        (media (parse (sdp description))) media'.
Proof.
  intros Hlines.
  destruct (mapC_total reorderSsrcs (media (parse (sdp description)))) as [media' Hrun].
  { eapply Forall_impl; [exact Hlines|]. intros m. apply reorderSsrcs_total. }
  exists media'. split.
  - unfold ensureCorrectOrderOfSsrcs, ensureCorrectOrderOfSsrcs_parsed.
    rewrite Hrun. reflexivity.
  - apply mapC_Normal in Hrun. eapply Forall2_impl; [exact Hrun|].
    intros m m' [Hpass Hre]%reorderSsrcs_spec. split; [exact Hpass|].
    intros Hn. destruct (Hre Hn) as (groups & Hg & Hm' & Hperm & Hord & Hstable).
    exists groups. split_and!; try assumption.
    intros Hall. by rewrite Hperm, filter_all.
Qed.

(** The theorem at a description with an audio section and a simulcast video
    section. *)
Lemma ensureCorrectOrderOfSsrcs_reorders_witness :
  Forall (λ m, ¬ passesThrough m → reorderable m)
         (media (sample_parse (sdp sample_description)))
  ∧ ∃ media' : list MLine,
      ensureCorrectOrderOfSsrcs sample_parse sample_write sample_description
      = Normal {| desc_type := "offer"; sdp := "v=0 normal" |}
      ∧ length media' = 2.
Proof.
  assert (Forall (λ m, ¬ passesThrough m → reorderable m)
                 (media (sample_parse (sdp sample_description)))) as H.
  { constructor; [|constructor; [|constructor]].
    - intros Hp. exfalso. apply Hp. by left.
    - intros _. split; [by eexists|].
      intros groups [= <-]. repeat (constructor; [by eexists|]). constructor. }
  split; [exact H|].
  destruct (ensureCorrectOrderOfSsrcs_reorders
              sample_parse sample_write sample_description H)
    as (media' & Hrun & Hall).
  exists media'. split; [exact Hrun|].
  apply Forall2_length in Hall. symmetry. exact Hall.
Defined.

Example reorder_simulcast_section :
  reorderSsrcs simulcast_section = Normal simulcast_section_normal.
Proof. vm_compute. reflexivity. Qed.

(** A section with groups and no ssrc line at all makes the call throw. *)
Example reorder_without_ssrc_lines_throws :
  reorderSsrcs (set_ssrcs simulcast_section None) = Throw TypeError.
Proof. vm_compute. reflexivity. Qed.

(** So does a section whose group lists a single id: sdp-transform parses
    the ids into a number, which has no [split]. *)
Example reorder_single_id_group_throws :
  ssrcGroups <$> media (transform.parse (sdp single_id_description))
  = [Some [ {| group_semantics := "FID"; group_ssrcs := Numeric "1" |} ]]
  ∧ ensureCorrectOrderOfSsrcs transform.parse transform.write single_id_description
    = Throw TypeError.
Proof. split; vm_compute; reflexivity. Qed.

(** In the result the members 11 and 14 of the FID group are not next to one
    another: the lines of 12 and 13, listed earlier by the SIM group, stand
    between them. *)
Example reorder_simulcast_ids :
  ssrc_id <$> ssrcLines simulcast_section_normal = ["11"; "11"; "12"; "13"; "14"].
Proof. reflexivity. Qed.

(** C1 (as stated) fails: a video section with one ssrc-group whose ssrc
    line 3 is in no group comes back without that line, so the ssrc lines
    of the result are not the multiset of the input's. *)
Lemma ensureCorrectOrderOfSsrcs_drops_unreferenced :
  type section_with_stray_ssrc ≠ "audio"
  ∧ (∃ g, ssrcGroups section_with_stray_ssrc = Some [g])
  ∧ ∃ m',
      ensureCorrectOrderOfSsrcs_parsed
        {| media := [section_with_stray_ssrc]; session_rest := [] |}
      = Normal {| media := [m']; session_rest := [] |}
      ∧ ssrc_id <$> ssrcLines m' = ["1"; "2"]
      ∧ ¬ (ssrcLines m' ≡ₚ ssrcLines section_with_stray_ssrc).
Proof.
  split; [discriminate|]. split; [eexists; reflexivity|].
  eexists. split; [vm_compute; reflexivity|]. split; [reflexivity|].
  intros Hperm. apply Permutation_length in Hperm. discriminate Hperm.
Qed.

(** ** Idempotence *)

Lemma ensureCorrectOrderOfSsrcs_parsed_idempotent (p p' : Parsed) :
  ensureCorrectOrderOfSsrcs_parsed p = Normal p' →
  ensureCorrectOrderOfSsrcs_parsed p' = Normal p'.
Proof.
  unfold ensureCorrectOrderOfSsrcs_parsed.
  intros (media' & Hrun & [= <-])%bind_Normal_inv. simpl.
  apply mapC_Normal in Hrun.
  assert (mapC reorderSsrcs media' = Normal media') as ->; [|reflexivity].
  apply mapC_Normal. induction Hrun as [|m m' l l' Hm _ IH]; constructor.
  - by apply (reorderSsrcs_idempotent m).
  - exact IH.
Qed.

(** C9 (as amended).  On the parsed description the normalisation is
    idempotent: applying it to its own result gives that result again (and
    when the first application throws, so does the composition).  On the
    session description the same holds provided the text written for the
    normalised description parses back to it. *)
Theorem ensureCorrectOrderOfSsrcs_idempotent :
  (∀ p : Parsed,
     ensureCorrectOrderOfSsrcs_parsed p ≫= ensureCorrectOrderOfSsrcs_parsed
     = ensureCorrectOrderOfSsrcs_parsed p)
  ∧ (∀ (parse : string → Parsed) (write : Parsed → string)
       (description : Description),
       (∀ p', ensureCorrectOrderOfSsrcs_parsed (parse (sdp description)) = Normal p' →
              parse (write p') = p') →
       ensureCorrectOrderOfSsrcs parse write description
         ≫= ensureCorrectOrderOfSsrcs parse write
       = ensureCorrectOrderOfSsrcs parse write description).
Proof.
  split.
  - intros p. destruct (ensureCorrectOrderOfSsrcs_parsed p) as [p'|e] eqn:Hrun;
      [|reflexivity].
    cbn. by apply (ensureCorrectOrderOfSsrcs_parsed_idempotent p).
  - intros parse write description Hround.
    destruct (ensureCorrectOrderOfSsrcs_parsed (parse (sdp description)))
      as [p'|e] eqn:Hrun.
    + assert (ensureCorrectOrderOfSsrcs parse write description
              = Normal {| desc_type := desc_type description; sdp := write p' |}) as ->.
      { unfold ensureCorrectOrderOfSsrcs. by rewrite Hrun. }
      cbn. unfold ensureCorrectOrderOfSsrcs. simpl.
      rewrite (Hround p' eq_refl).
      by rewrite (ensureCorrectOrderOfSsrcs_parsed_idempotent _ _ Hrun).
    + assert (ensureCorrectOrderOfSsrcs parse write description = Throw e) as ->.
      { unfold ensureCorrectOrderOfSsrcs. by rewrite Hrun. }
      reflexivity.
Qed.

(** The theorem at [simulcast_description], with sdp-transform's parser and
    writer: the first application reorders the lines of the video section,
    the second returns the same description. *)
Lemma ensureCorrectOrderOfSsrcs_idempotent_witness :
  (∀ p', ensureCorrectOrderOfSsrcs_parsed (transform.parse (sdp simulcast_description))
         = Normal p' →
         transform.parse (transform.write p') = p')
  ∧ ensureCorrectOrderOfSsrcs transform.parse transform.write simulcast_description
      ≫= ensureCorrectOrderOfSsrcs transform.parse transform.write
    = Normal simulcast_description_normal
  ∧ ensureCorrectOrderOfSsrcs_parsed sample_parsed
      ≫= ensureCorrectOrderOfSsrcs_parsed
    = Normal sample_parsed_normal.
Proof.
  assert (∀ p', ensureCorrectOrderOfSsrcs_parsed
                  (transform.parse (sdp simulcast_description))
                = Normal p' →
                transform.parse (transform.write p') = p') as H.
  { intros p' Hrun. vm_compute in Hrun. injection Hrun as <-.
    vm_compute. reflexivity. }
  split; [exact H|]. split.
  - rewrite (proj2 ensureCorrectOrderOfSsrcs_idempotent
               transform.parse transform.write simulcast_description H).
    vm_compute. reflexivity.
  - rewrite (proj1 ensureCorrectOrderOfSsrcs_idempotent sample_parsed).
    vm_compute. reflexivity.
Defined.

(** C9 (as stated) fails on session descriptions.  The video section of
    [stray_description] has one ssrc line, of an id its group does not
    list.  The first application returns: it leaves the section with an
    empty list of ssrc lines, for which the writer puts out no line.  In
    the text it returns the section has a group and no ssrc line, so the
    parser gives the section no [ssrcs] and the second application throws
    a [TypeError] where the first returned. *)
Lemma ensureCorrectOrderOfSsrcs_second_application_throws :
  ensureCorrectOrderOfSsrcs transform.parse transform.write stray_description
  = Normal stray_description_normal
  ∧ ensureCorrectOrderOfSsrcs transform.parse transform.write stray_description_normal
    = Throw TypeError
  ∧ ensureCorrectOrderOfSsrcs transform.parse transform.write stray_description
      ≫= ensureCorrectOrderOfSsrcs transform.parse transform.write
    ≠ ensureCorrectOrderOfSsrcs transform.parse transform.write stray_description.
Proof.
  split; [vm_compute; reflexivity|]. split; [vm_compute; reflexivity|].
  vm_compute. discriminate.
Qed.

(** ** calculateEncodingsActiveState *)

Lemma config_scale (browser : Browser) (this : TPCUtils) (idx : nat)
    (encoding : Encoding) :
  localStreamEncodingsConfig browser this !! idx = Some encoding →
  ∃ scale, scaleResolutionDownBy encoding = Some scale
           ∧ (scale = 1 ∨ scale = 2 ∨ scale = 4)%Q.
Proof.
  unfold localStreamEncodingsConfig. intros H.
  destruct idx as [|[|[|idx]]]; simplify_eq/=;
    destruct (isFirefox browser); eauto.
Qed.

(** C2.  For a camera track with capture height [h], the flag of every
    configured layer is set exactly when [h / scale <= newHeight], or when
    [newHeight > 0] and the layer's scale factor is 4.0; there is one flag
    per layer; and with the layers of a non-Firefox browser (scale factors
    4, 2, 1), [h = 720] and [newHeight = 180] the flags are
    [true, false, false]. *)
Theorem calculateEncodingsActiveState_camera
    (browser : Browser) (this : TPCUtils) (track : JitsiLocalTrack) (h newHeight : Z) :
  getVideoType track = VideoType.CAMERA →
  settings_height (getTrack track) = Some h →
  (∀ idx encoding scale,
     localStreamEncodingsConfig browser this !! idx = Some encoding →
     scaleResolutionDownBy encoding = Some scale →
     ∃ active,
       calculateEncodingsActiveState browser this track newHeight !! idx = Some active
       ∧ (active = true ↔
          (inject_Z h / scale <= inject_Z newHeight)%Q
          ∨ ((0 < newHeight)%Z ∧ (scale == 4)%Q)))
  ∧ length (calculateEncodingsActiveState browser this track newHeight)
    = length (localStreamEncodingsConfig browser this)
  ∧ (isFirefox browser = false → h = 720%Z → newHeight = 180%Z →
     scaleResolutionDownBy <$> localStreamEncodingsConfig browser this
       = [Some 4%Q; Some 2%Q; Some 1%Q]
     ∧ calculateEncodingsActiveState browser this track newHeight
       = [true; false; false]).
Proof.
  intros Hcam Hh. split_and!.
  - intros idx encoding scale Hidx Hscale.
    unfold calculateEncodingsActiveState.
    rewrite Hcam, Hh. simpl String.eqb. rewrite andb_false_r. simpl andb.
    rewrite list_lookup_imap, list_lookup_fmap, Hidx. simpl.
    rewrite Hscale. simpl. eexists. split; [reflexivity|].
    unfold LD_SCALE_FACTOR.
    destruct (0 <? newHeight)%Z eqn:Hpos; simpl.
    + apply Z.ltb_lt in Hpos. destruct (Qeq_bool scale 4) eqn:Heq.
      * apply Qeq_bool_iff in Heq. tauto.
      * rewrite Qle_bool_iff. split; [tauto|]. intros [?|[_ Heq']]; [assumption|].
        apply Qeq_bool_iff in Heq'. congruence.
    + apply Z.ltb_ge in Hpos. rewrite Qle_bool_iff. split; [tauto|].
      intros [?|[? _]]; [assumption | lia].
  - unfold calculateEncodingsActiveState. by rewrite length_imap, length_map.
  - intros Hff -> ->. unfold calculateEncodingsActiveState, localStreamEncodingsConfig.
    rewrite Hcam, Hh, Hff. destruct (isSharingLowFpsScreen (pc this)); split; reflexivity.
Qed.

(** The theorem at a 720p camera track on Chrome, asked for 180. *)
Lemma calculateEncodingsActiveState_camera_witness :
  getVideoType camera_track_720 = VideoType.CAMERA
  ∧ settings_height (getTrack camera_track_720) = Some 720%Z
  ∧ calculateEncodingsActiveState chrome sample_utils camera_track_720 180
    = [true; false; false].
Proof.
  split; [reflexivity|]. split; [reflexivity|].
  apply (calculateEncodingsActiveState_camera
           chrome sample_utils camera_track_720 720 180 eq_refl eq_refl);
    reflexivity.
Defined.

(** ** Lookup failures *)

Lemma addTrackUnmute_rejects (browser : Browser)
    (addStream : MediaStream → list RTCRtpTransceiver → list RTCRtpTransceiver)
    (this : TPCUtils) (localTrack : JitsiLocalTrack) :
  Forall (λ t, receiver_kind t ≠ getType localTrack) (transceivers (pc this)) →
  addTrackUnmute browser addStream this localTrack
  = (Rejected ("RTCRtpTransceiver for " +:+ getType localTrack +:+ " not found"), this).
Proof.
  intros Hnone. unfold addTrackUnmute.
  by rewrite (proj2 (list_find_None _ _) Hnone).
Qed.

Lemma removeTrackMute_rejects (this : TPCUtils) (localTrack : JitsiLocalTrack) :
  Forall (λ t, track_id <$> sender_track t ≠ Some (getTrackId localTrack))
         (transceivers (pc this)) →
  removeTrackMute this localTrack
  = (Rejected ("RTCRtpTransceiver for " +:+ getType localTrack +:+ " not found"), this).
Proof.
  intros Hnone. unfold removeTrackMute.
  by rewrite (proj2 (list_find_None _ _) Hnone).
Qed.

Lemma replaceTrack_rejects (multiStream : bool)
    (getLocalTracks : TraceablePeerConnection → option string → list JitsiLocalTrack)
    (Number : string → number)
    (this : TPCUtils) (oldTrack newTrack : option JitsiLocalTrack) :
  replaceTrack_select multiStream getLocalTracks Number this oldTrack newTrack = Normal None →
  replaceTrack multiStream getLocalTracks Number this oldTrack newTrack
  = (Rejected "replace track failed", this).
Proof. intros Hsel. unfold replaceTrack. by rewrite Hsel. Qed.

(** C3 (the code departs from it).  When no transceiver's sender holds a
    track of the kind of [track], [setEncodings] throws a [TypeError]
    before any promise exists, instead of returning a rejected promise as
    [addTrackUnmute], [removeTrackMute] and [replaceTrack] do. *)
Theorem setEncodings_throws_without_transceiver
    (browser : Browser) (this : TPCUtils) (track : JitsiLocalTrack) :
  Forall (λ t, kind <$> sender_track t ≠ Some (getType track))
         (transceivers (pc this)) →
  setEncodings browser this track = (Thrown TypeError, this).
Proof.
  intros Hnone. unfold setEncodings.
  by rewrite (proj2 (list_find_None _ _) Hnone).
Qed.

(** The theorem on a connection without transceivers. *)
Lemma setEncodings_throws_without_transceiver_witness :
  Forall (λ t, kind <$> sender_track t ≠ Some (getType camera_track_720))
         (transceivers (pc sample_utils))
  ∧ setEncodings chrome sample_utils camera_track_720
    = (Thrown TypeError, sample_utils).
Proof.
  assert (Forall (λ t, kind <$> sender_track t ≠ Some (getType camera_track_720))
                 (transceivers (pc sample_utils))) as H by constructor.
  split; [exact H|].
  exact (setEncodings_throws_without_transceiver chrome sample_utils camera_track_720 H).
Defined.

(** On the same connection the other three operations reject. *)
Example lookup_failures_on_empty_connection :
  addTrackUnmute chrome no_addStream sample_utils camera_track_720
  = (Rejected "RTCRtpTransceiver for video not found", sample_utils)
  ∧ removeTrackMute sample_utils camera_track_720
    = (Rejected "RTCRtpTransceiver for video not found", sample_utils)
  ∧ replaceTrack false tracksOfKind decimalNumber sample_utils None (Some camera_track_720)
    = (Rejected "replace track failed", sample_utils).
Proof. split_and!; reflexivity. Qed.

(** Unmuting a track of a session that started muted reaches [setEncodings]
    while no sender holds a track yet (the stand-in [addStream] attaches
    none): the unmute itself throws. *)
Example addTrackUnmute_throws_through_setEncodings :
  addTrackUnmute chrome no_addStream muted_start_utils camera_track_720
  = (Thrown TypeError, muted_start_utils).
Proof. reflexivity. Qed.

(** ** addTrackUnmute without a stream *)

(** C10.  When the first transceiver of the track's kind is receive-only and
    the track has no original stream, [addTrackUnmute] resolves and the
    connection is as before: its transceivers (directions, senders,
    encodings) and its map of local tracks are unchanged. *)
Theorem addTrackUnmute_recvonly_without_stream
    (browser : Browser)
    (addStream : MediaStream → list RTCRtpTransceiver → list RTCRtpTransceiver)
    (this : TPCUtils) (localTrack : JitsiLocalTrack)
    (i : nat) (transceiver : RTCRtpTransceiver) :
  list_find (λ t, receiver_kind t = getType localTrack) (transceivers (pc this))
    = Some (i, transceiver) →
  direction transceiver = RECVONLY →
  getOriginalStream localTrack = None →
  addTrackUnmute browser addStream this localTrack = (Resolved (), this).
Proof.
  intros Hfind Hdir Hstream. unfold addTrackUnmute.
  rewrite Hfind, Hstream. by rewrite decide_True.
Qed.

(** The theorem on a session that started muted. *)
Lemma addTrackUnmute_recvonly_without_stream_witness :
  list_find (λ t, receiver_kind t = getType camera_track_no_stream)
            (transceivers (pc muted_start_utils))
    = Some (1, recvonly_video)
  ∧ direction recvonly_video = RECVONLY
  ∧ getOriginalStream camera_track_no_stream = None
  ∧ addTrackUnmute firefox no_addStream muted_start_utils camera_track_no_stream
    = (Resolved (), muted_start_utils).
Proof.
  split_and!; [reflexivity..|].
  exact (addTrackUnmute_recvonly_without_stream
           firefox no_addStream muted_start_utils camera_track_no_stream
           1 recvonly_video eq_refl eq_refl eq_refl).
Defined.

(** ** The startup encodings and addTrack *)

(** C4.  The startup encodings are three active layers with
    rids 1, 2, 3.  Off Firefox layer 1 has scale 4 and the low bitrate,
    layer 2 scale 2 and the standard bitrate, layer 3 scale 1 and the high
    bitrate; on Firefox layers 1 and 3 exchange scale and bitrate.  And
    [addTrack] as initiator, off Firefox, with simulcast on and a video
    track, appends one transceiver: sendrecv, sending the track, with
    exactly these three encodings. *)
Theorem startup_encodings_installed
    (browser : Browser)
    (pcAddTrack : MediaStreamTrack → list RTCRtpTransceiver → list RTCRtpTransceiver)
    (this : TPCUtils) :
  rid <$> localStreamEncodingsConfig browser this = [Some "1"; Some "2"; Some "3"]
  ∧ Forall (λ e, active e = true) (localStreamEncodingsConfig browser this)
  ∧ (isFirefox browser = false →
     localStreamEncodingsConfig browser this
     = [ {| active := true; maxBitrate := Some (low (videoBitrates this));
            rid := Some "1"; scaleResolutionDownBy := Some 4%Q |};
         {| active := true; maxBitrate := Some (standard (videoBitrates this));
            rid := Some "2"; scaleResolutionDownBy := Some 2%Q |};
         {| active := true; maxBitrate := Some (high (videoBitrates this));
            rid := Some "3"; scaleResolutionDownBy := Some 1%Q |} ])
  ∧ (isFirefox browser = true →
     localStreamEncodingsConfig browser this
     = [ {| active := true; maxBitrate := Some (high (videoBitrates this));
            rid := Some "1"; scaleResolutionDownBy := Some 1%Q |};
         {| active := true; maxBitrate := Some (standard (videoBitrates this));
            rid := Some "2"; scaleResolutionDownBy := Some 2%Q |};
         {| active := true; maxBitrate := Some (low (videoBitrates this));
            rid := Some "3"; scaleResolutionDownBy := Some 4%Q |} ])
  ∧ (∀ localTrack,
       isFirefox browser = false →
       isSimulcastOn (pc this) = true →
       isVideoTrack localTrack = true →
       transceivers (pc (addTrack browser pcAddTrack this localTrack true))
       = transceivers (pc this)
         ++ [ {| receiver_kind := kind (getTrack localTrack);
                 direction := SENDRECV;
                 currentDirection := None;
                 sender_track := Some (getTrack localTrack);
                 sender_streams := [getOriginalStream localTrack];
                 sender_encodings := localStreamEncodingsConfig browser this |} ]).
Proof.
  split_and!.
  - reflexivity.
  - repeat constructor.
  - intros Hff. unfold localStreamEncodingsConfig. by rewrite Hff.
  - intros Hff. unfold localStreamEncodingsConfig. by rewrite Hff.
  - intros localTrack Hff Hsim Hvideo.
    unfold addTrack, _getStreamEncodings, addTransceiver.
    rewrite Hff, Hsim, Hvideo. reflexivity.
Qed.

(** The theorem on Chrome: a first camera track added by the initiator. *)
Lemma startup_encodings_installed_witness :
  isFirefox chrome = false
  ∧ isSimulcastOn (pc sample_utils) = true
  ∧ isVideoTrack camera_track_720 = true
  ∧ sender_encodings
      <$> transceivers (pc (addTrack chrome no_addTrack sample_utils camera_track_720 true))
    = [ [ {| active := true; maxBitrate := Some 200000%Z;
             rid := Some "1"; scaleResolutionDownBy := Some 4%Q |};
          {| active := true; maxBitrate := Some 500000%Z;
             rid := Some "2"; scaleResolutionDownBy := Some 2%Q |};
          {| active := true; maxBitrate := Some 1500000%Z;
             rid := Some "3"; scaleResolutionDownBy := Some 1%Q |} ] ].
Proof.
  split_and!; [reflexivity..|].
  destruct (startup_encodings_installed chrome no_addTrack sample_utils)
    as (_ & _ & _ & _ & Hadd).
  rewrite (Hadd camera_track_720 eq_refl eq_refl eq_refl). reflexivity.
Defined.

(** The three layers are for video: an audio track added by the initiator
    off Firefox with simulcast on gets the single encoding
    [{ active: true }]. *)
Example addTrack_audio_single_encoding :
  isFirefox chrome = false
  ∧ isSimulcastOn (pc sample_utils) = true
  ∧ sender_encodings
      <$> transceivers (pc (addTrack chrome no_addTrack sample_utils audio_track true))
    = [ [ {| active := true; maxBitrate := None;
             rid := None; scaleResolutionDownBy := None |} ] ]
  ∧ sender_encodings
      <$> transceivers (pc (addTrack chrome no_addTrack sample_utils audio_track true))
    ≠ [ localStreamEncodingsConfig chrome sample_utils ].
Proof. split_and!; [reflexivity..|discriminate]. Qed.

(** ** calculateEncodingsBitrates under low-fps screen sharing *)

(** C7 (as amended).  With low-fps screen sharing on a browser that is not
    WebKit based the three bitrates are equal: [HD_BITRATE] with a presenter
    overlay; otherwise the configured [videoQuality.desktopBitrate] when it
    is set and not zero, and [DESKTOP_SHARE_RATE] when it is not. *)
Theorem calculateEncodingsBitrates_low_fps
    (browser : Browser) (this : TPCUtils) (track : JitsiLocalTrack) :
  isSharingLowFpsScreen (pc this) = true →
  isWebKitBased browser = false →
  (presenterOverlayActive track →
   calculateEncodingsBitrates browser this track
   = [Some HD_BITRATE; Some HD_BITRATE; Some HD_BITRATE])
  ∧ (¬ presenterOverlayActive track →
     ∀ rate, desktopBitrate (pc this) = Some rate → rate ≠ 0%Z →
     calculateEncodingsBitrates browser this track = [Some rate; Some rate; Some rate])
  ∧ (¬ presenterOverlayActive track →
     desktopBitrate (pc this) = None ∨ desktopBitrate (pc this) = Some 0%Z →
     calculateEncodingsBitrates browser this track
     = [Some DESKTOP_SHARE_RATE; Some DESKTOP_SHARE_RATE; Some DESKTOP_SHARE_RATE]).
Proof.
  intros Hlow Hwk. unfold calculateEncodingsBitrates, presenterOverlayActive.
  rewrite Hlow, Hwk. simpl. split_and!.
  - intros (original & -> & Hne). by rewrite bool_decide_eq_false_2.
  - intros Hno rate -> Hrate.
    rewrite (proj2 (Z.eqb_neq rate 0) Hrate).
    destruct (_originalStream track) as [original|]; [|reflexivity].
    rewrite bool_decide_eq_true_2; [reflexivity|].
    destruct (decide (Some (stream_id original) = getStreamId track)); [assumption|].
    exfalso. apply Hno. eauto.
  - intros Hno Hrate.
    assert (match desktopBitrate (pc this) with
            | Some rate => if (rate =? 0)%Z then DESKTOP_SHARE_RATE else rate
            | None => DESKTOP_SHARE_RATE
            end = DESKTOP_SHARE_RATE) as -> by (destruct Hrate as [-> | ->]; reflexivity).
    destruct (_originalStream track) as [original|]; [|reflexivity].
    rewrite bool_decide_eq_true_2; [reflexivity|].
    destruct (decide (Some (stream_id original) = getStreamId track)); [assumption|].
    exfalso. apply Hno. eauto.
Qed.

(** The theorem on Chrome with a presenter overlay. *)
Lemma calculateEncodingsBitrates_low_fps_witness :
  isSharingLowFpsScreen (pc lowfps_default_utils) = true
  ∧ isWebKitBased chrome = false
  ∧ presenterOverlayActive presenter_track
  ∧ calculateEncodingsBitrates chrome lowfps_default_utils presenter_track
    = [Some 2500000%Z; Some 2500000%Z; Some 2500000%Z].
Proof.
  assert (presenterOverlayActive presenter_track) as Hp.
  { eexists. split; [reflexivity | discriminate]. }
  split_and!; [reflexivity | reflexivity | exact Hp |].
  destruct (calculateEncodingsBitrates_low_fps
              chrome lowfps_default_utils presenter_track eq_refl eq_refl)
    as (Hpresenter & _ & _).
  exact (Hpresenter Hp).
Defined.

(** C7 (as stated) fails: without an overlay, and with
    [videoQuality.desktopBitrate] set to 1000000, the three entries are the
    configured rate and not the default desktop-share rate. *)
Lemma calculateEncodingsBitrates_configured_rate :
  isSharingLowFpsScreen (pc lowfps_configured_utils) = true
  ∧ isWebKitBased chrome = false
  ∧ ¬ presenterOverlayActive desktop_track
  ∧ calculateEncodingsBitrates chrome lowfps_configured_utils desktop_track
    = [Some 1000000%Z; Some 1000000%Z; Some 1000000%Z]
  ∧ calculateEncodingsBitrates chrome lowfps_configured_utils desktop_track
    ≠ [Some DESKTOP_SHARE_RATE; Some DESKTOP_SHARE_RATE; Some DESKTOP_SHARE_RATE].
Proof.
  split_and!; [reflexivity | reflexivity | | reflexivity | discriminate].
  intros (original & [= <-] & Hne). by apply Hne.
Qed.

(** ** insertUnifiedPlanSimulcastReceive *)

(** C8.  On a browser that does not munge the SDP for simulcast, when the
    first video section carries no rid and no simulcast attribute, the call
    returns the description written from the parsed one with that section
    alone replaced: its rids are 1, 2, 3 in this order, each with direction
    recv; its simulcast attribute is [recv rid=1;2;3], or [recv 1;2;3] on
    Firefox above version 71; its other fields are as before. *)
Theorem insertUnifiedPlanSimulcastReceive_injects
    (browser : Browser) (parse : string → Parsed) (write : Parsed → string)
    (desc : Description) (idx : nat) (first : MLine) :
  usesSdpMungingForSimulcast browser = false →
  list_find (λ mline, type mline = "video") (media (parse (sdp desc)))
    = Some (idx, first) →
  rids first = None → simulcast first = None → simulcast_03 first = None →
  ∃ first',
    insertUnifiedPlanSimulcastReceive browser parse write desc
    = Normal {| desc_type := desc_type desc;
                sdp := write (set_media (parse (sdp desc))
                                (<[idx := first']> (media (parse (sdp desc))))) |}
    ∧ rids first'
      = Some [ {| rid_id := "1"; rid_direction := "recv" |};
               {| rid_id := "2"; rid_direction := "recv" |};
               {| rid_id := "3"; rid_direction := "recv" |} ]
    ∧ simulcast_03 first'
      = Some {| simulcast_value :=
                  if isFirefox browser && isVersionGreaterThan browser 71
                  then "recv 1;2;3" else "recv rid=1;2;3" |}
    ∧ first' = set_simulcast_03 (set_rids first (rids first')) (simulcast_03 first').
Proof.
  intros Hmunge Hfind Hrids Hsim Hsim03.
  unfold insertUnifiedPlanSimulcastReceive.
  rewrite Hmunge, Hfind, Hrids. simpl.
  eexists. split; [reflexivity|]. simpl. split_and!.
  - reflexivity.
  - by destruct (isFirefox browser && isVersionGreaterThan browser 71).
  - reflexivity.
Qed.

(** The theorem on Chrome and on Firefox, for an offer whose second section
    is the first video one. *)
Lemma insertUnifiedPlanSimulcastReceive_injects_witness :
  usesSdpMungingForSimulcast chrome = false
  ∧ list_find (λ mline, type mline = "video") (media (plain_parse "v=0"))
    = Some (1, plain_video_section)
  ∧ rids plain_video_section = None
  ∧ simulcast plain_video_section = None
  ∧ simulcast_03 plain_video_section = None
  ∧ insertUnifiedPlanSimulcastReceive chrome plain_parse rid_summary sample_description
    = Normal {| desc_type := "offer"; sdp := "1,2,3/recv rid=1;2;3" |}
  ∧ insertUnifiedPlanSimulcastReceive firefox plain_parse rid_summary sample_description
    = Normal {| desc_type := "offer"; sdp := "1,2,3/recv 1;2;3" |}.
Proof.
  split_and!; [reflexivity..| |].
  - destruct (insertUnifiedPlanSimulcastReceive_injects
                chrome plain_parse rid_summary sample_description 1 plain_video_section
                eq_refl eq_refl eq_refl eq_refl eq_refl)
      as (first' & -> & Hrids & Hsim & ->).
    rewrite Hrids, Hsim. reflexivity.
  - destruct (insertUnifiedPlanSimulcastReceive_injects
                firefox plain_parse rid_summary sample_description 1 plain_video_section
                eq_refl eq_refl eq_refl eq_refl eq_refl)
      as (first' & -> & Hrids & Hsim & ->).
    rewrite Hrids, Hsim. reflexivity.
Defined.

(** ** replaceTrack *)

Lemma truthy_nonempty (s : string) : s ≠ "" → truthy s = true.
Proof.
  intros Hs. unfold truthy. destruct (String.eqb_spec s ""); [contradiction|reflexivity].
Qed.

Lemma replaceTrack_resolves (multiStream : bool)
    (getLocalTracks : TraceablePeerConnection → option string → list JitsiLocalTrack)
    (Number : string → number)
    (this : TPCUtils) (oldTrack newTrack : option JitsiLocalTrack)
    (i : nat) (transceiver : RTCRtpTransceiver) :
  replaceTrack_select multiStream getLocalTracks Number this oldTrack newTrack
    = Normal (Some (i, transceiver)) →
  replaceTrack multiStream getLocalTracks Number this oldTrack newTrack
  = (Resolved (sender_replaceTrack transceiver (getTrack <$> newTrack)),
     with_transceivers this
       (<[i := sender_replaceTrack transceiver (getTrack <$> newTrack)]>
          (transceivers (pc this)))).
Proof. intros Hsel. unfold replaceTrack. by rewrite Hsel. Qed.

Lemma replaceTrack_select_new_source
    (getLocalTracks : TraceablePeerConnection → option string → list JitsiLocalTrack)
    (Number : string → number) (this : TPCUtils)
    (newTrack : JitsiLocalTrack) :
  getLocalTracks (pc this) (Some (getType newTrack)) ≠ [] →
  getType newTrack ≠ "" →
  conference newTrack = false →
  replaceTrack_select true getLocalTracks Number this None (Some newTrack)
  = Normal (list_find (λ t, receiver_kind t = getType newTrack
                            ∧ direction t = RECVONLY
                            ∧ currentDirection t = Some INACTIVE)
                      (transceivers (pc this))).
Proof.
  intros Htracks Htype Hconf.
  unfold replaceTrack_select, isNewLocalSource, replaceTrack_mediaType, unmuted.
  simpl. rewrite (truthy_nonempty _ Htype), Hconf.
  destruct (getLocalTracks (pc this) (Some (getType newTrack))); [done|]. simpl.
  f_equal. apply list_find_ext. intros t. split.
  - intros ([= ->] & ? & ?). done.
  - intros (-> & ? & ?). done.
Qed.

(** C5.  With multi-stream support on, [replaceTrack(null, newTrack)] for a
    track not yet in a conference, of a kind that already has local tracks,
    settles on the first transceiver of that kind whose direction is
    recvonly and whose negotiated direction is inactive: it resolves with
    that transceiver, now sending the track, and rejects with
    "replace track failed" when there is none.  So a transceiver it resolves
    with is never one whose direction is sendrecv. *)
Theorem replaceTrack_new_local_source
    (getLocalTracks : TraceablePeerConnection → option string → list JitsiLocalTrack)
    (Number : string → number) (this : TPCUtils) (newTrack : JitsiLocalTrack) :
  getLocalTracks (pc this) (Some (getType newTrack)) ≠ [] →
  getType newTrack ≠ "" →
  conference newTrack = false →
  match list_find (λ t, receiver_kind t = getType newTrack
                        ∧ direction t = RECVONLY
                        ∧ currentDirection t = Some INACTIVE)
                  (transceivers (pc this)) with
  | Some (i, transceiver) =>
      replaceTrack true getLocalTracks Number this None (Some newTrack)
      = (Resolved (sender_replaceTrack transceiver (Some (getTrack newTrack))),
         with_transceivers this
           (<[i := sender_replaceTrack transceiver (Some (getTrack newTrack))]>
              (transceivers (pc this))))
  | None =>
      replaceTrack true getLocalTracks Number this None (Some newTrack)
      = (Rejected "replace track failed", this)
  end
  ∧ (∀ selected this',
       replaceTrack true getLocalTracks Number this None (Some newTrack) = (Resolved selected, this') →
       receiver_kind selected = getType newTrack
       ∧ direction selected = RECVONLY
       ∧ currentDirection selected = Some INACTIVE
       ∧ direction selected ≠ SENDRECV)
  ∧ (Forall (λ t, ¬ (receiver_kind t = getType newTrack
                     ∧ direction t = RECVONLY
                     ∧ currentDirection t = Some INACTIVE))
            (transceivers (pc this)) →
     replaceTrack true getLocalTracks Number this None (Some newTrack)
     = (Rejected "replace track failed", this)).
Proof.
  intros Htracks Htype Hconf.
  pose proof (replaceTrack_select_new_source getLocalTracks Number this newTrack Htracks Htype Hconf)
    as Hsel.
  destruct (list_find _ (transceivers (pc this))) as [[i transceiver]|] eqn:Hfind.
  - rewrite (replaceTrack_resolves _ _ _ _ _ _ _ _ Hsel). split_and!.
    + reflexivity.
    + intros selected this' [= <- _].
      apply list_find_Some in Hfind as (_ & (Hkind & Hdir & Hcur) & _).
      simpl. rewrite Hdir. done.
    + intros Hnone. apply (proj2 (list_find_None _ _)) in Hnone. congruence.
  - rewrite (replaceTrack_rejects _ _ _ _ _ _ Hsel). split_and!; [reflexivity| |done].
    intros selected this' [=].
Qed.

(** The theorem for a second camera while one is sent: the placeholder
    section is taken, not the one that sends nor the one only receiving. *)
Lemma replaceTrack_new_local_source_witness :
  tracksOfKind (pc one_camera_utils) (Some (getType second_camera_track)) ≠ []
  ∧ getType second_camera_track ≠ ""
  ∧ conference second_camera_track = false
  ∧ replaceTrack true tracksOfKind decimalNumber one_camera_utils None (Some second_camera_track)
    = (Resolved (sender_replaceTrack placeholder_video
                   (Some (getTrack second_camera_track))),
       with_transceivers one_camera_utils
         [sending "audio" "mic-0"; sending "video" "cam-0"; recvonly_video;
          sender_replaceTrack placeholder_video (Some (getTrack second_camera_track))]).
Proof.
  assert (tracksOfKind (pc one_camera_utils) (Some (getType second_camera_track)) ≠ [])
    as H1 by (vm_compute; discriminate).
  assert (getType second_camera_track ≠ "") as H2 by discriminate.
  split_and!; [exact H1 | exact H2 | reflexivity |].
  pose proof (replaceTrack_new_local_source
                tracksOfKind decimalNumber one_camera_utils second_camera_track H1 H2 eq_refl)
    as (Hsel & _ & _).
  exact Hsel.
Defined.

(** C6 (as amended).  In the mute/unmute branch (no unmuted old track, not
    a new local source): without a source name the first transceiver of the
    media kind is taken.  With a source name whose second dash-separated
    field, less its first character, reads as the integer [n]: for [n > 0]
    the [n]-th transceiver is taken, counting from 0 the transceivers of the
    media kind whose direction is not recvonly (none when there are too
    few); for [n = 0], or when the field is not a number, the first
    transceiver of the media kind is taken, whatever its direction. *)
Theorem replaceTrack_select_by_source_name
    (multiStream : bool)
    (getLocalTracks : TraceablePeerConnection → option string → list JitsiLocalTrack)
    (Number : string → number) (this : TPCUtils)
    (oldTrack newTrack : option JitsiLocalTrack) :
  unmuted oldTrack = false →
  isNewLocalSource multiStream getLocalTracks this oldTrack newTrack = false →
  let mediaType := replaceTrack_mediaType oldTrack newTrack in
  let first :=
    list_find (λ t, Some (receiver_kind t) = mediaType) (transceivers (pc this)) in
  (replaceTrack_sourceName oldTrack newTrack = None
   ∨ replaceTrack_sourceName oldTrack newTrack = Some "" →
   replaceTrack_select multiStream getLocalTracks Number this oldTrack newTrack = Normal first)
  ∧ (∀ sourceName field,
       replaceTrack_sourceName oldTrack newTrack = Some sourceName →
       sourceName ≠ "" →
       split "-" sourceName !! 1 = Some field →
       (∀ n, Number (substring1 field) = Integer n → (0 < n)%Z →
             replaceTrack_select multiStream getLocalTracks Number this oldTrack newTrack
             = Normal (filter (λ it, Some (receiver_kind it.2) = mediaType
                                     ∧ direction it.2 ≠ RECVONLY)
                              (indexed (transceivers (pc this)))
                         !! Z.to_nat n))
       ∧ (Number (substring1 field) = Integer 0 ∨ Number (substring1 field) = NaN →
          replaceTrack_select multiStream getLocalTracks Number this oldTrack newTrack = Normal first)).
Proof.
  intros Hold Hnew mediaType first. unfold replaceTrack_select.
  rewrite Hold, Hnew. fold mediaType. fold first. split.
  - intros [-> | ->]; reflexivity.
  - intros sourceName field -> Hname Hfield.
    rewrite (truthy_nonempty _ Hname), Hfield. split.
    + intros n -> Hn. simpl.
      rewrite (proj2 (Z.eqb_neq n 0)) by lia. simpl.
      by rewrite (proj2 (Z.leb_le 0 n)) by lia.
    + intros [-> | ->]; reflexivity.
Qed.

(** The theorem for the camera named [abcd1234-v1] while two cameras are
    sent: the second sending video transceiver is taken, the receive-only
    one before it is not counted. *)
Lemma replaceTrack_select_by_source_name_witness :
  unmuted None = false
  ∧ isNewLocalSource false tracksOfKind two_camera_utils None (Some second_camera_track) = false
  ∧ replaceTrack_sourceName None (Some second_camera_track) = Some "abcd1234-v1"
  ∧ "abcd1234-v1" ≠ ""
  ∧ split "-" "abcd1234-v1" !! 1 = Some "v1"
  ∧ decimalNumber (substring1 "v1") = Integer 1
  ∧ (0 < 1)%Z
  ∧ replaceTrack_select false tracksOfKind decimalNumber two_camera_utils
      None (Some second_camera_track)
    = Normal (Some (3, sending "video" "cam-1")).
Proof.
  assert ("abcd1234-v1" ≠ "") as Hname by discriminate.
  split_and!; [reflexivity | reflexivity | reflexivity | exact Hname
               | reflexivity | reflexivity | lia |].
  destruct (replaceTrack_select_by_source_name
              false tracksOfKind decimalNumber two_camera_utils None (Some second_camera_track)
              eq_refl eq_refl) as [_ Hnamed].
  destruct (Hnamed "abcd1234-v1" "v1" eq_refl Hname eq_refl) as [Hpos _].
  rewrite (Hpos 1%Z eq_refl ltac:(lia)). reflexivity.
Defined.

(** C6 (as stated) fails for index 0: for the camera named [abcd1234-v0],
    with a receive-only video transceiver ahead of the sending one, the
    code takes the receive-only transceiver at position 0, whereas the
    transceiver number 0 among those not receive-only is the one at
    position 1. *)
Lemma replaceTrack_index_zero_takes_first :
  unmuted None = false
  ∧ isNewLocalSource false tracksOfKind recvonly_first_utils None (Some first_camera_track) = false
  ∧ replaceTrack_sourceName None (Some first_camera_track) = Some "abcd1234-v0"
  ∧ decimalNumber (substring1 "v0") = Integer 0
  ∧ replaceTrack_select false tracksOfKind decimalNumber recvonly_first_utils
      None (Some first_camera_track)
    = Normal (Some (0, recvonly_video))
  ∧ filter (λ it, receiver_kind it.2 = "video" ∧ direction it.2 ≠ RECVONLY)
           (indexed (transceivers (pc recvonly_first_utils))) !! 0
    = Some (1, sending "video" "cam-9")
  ∧ replaceTrack_select false tracksOfKind decimalNumber recvonly_first_utils
      None (Some first_camera_track)
    ≠ Normal (filter (λ it, receiver_kind it.2 = "video" ∧ direction it.2 ≠ RECVONLY)
                     (indexed (transceivers (pc recvonly_first_utils))) !! 0)
  ∧ direction recvonly_video = RECVONLY.
Proof. split_and!; [reflexivity..|discriminate|reflexivity]. Qed.

(** * Further properties *)

(** ** When the reordering throws *)

Lemma Error_unique (e : Error) : e = TypeError.
Proof. by destruct e. Qed.

Lemma mapC_Throw {A B} (f : A → Completion B) (l : list A) :
  mapC f l = Throw TypeError ↔ Exists (λ x, f x = Throw TypeError) l.
Proof.
  induction l as [|x l IH]; simpl.
  - split; [discriminate | by intros ?%Exists_nil].
  - rewrite Exists_cons, <- IH. destruct (f x) as [y|e] eqn:Hx; cbn.
    + destruct (mapC f l) as [ys|e]; cbn.
      * split; [discriminate | intros [?|?]; discriminate].
      * rewrite (Error_unique e). tauto.
    + rewrite (Error_unique e). tauto.
Qed.

Lemma Exists_equiv {A} (P Q : A → Prop) (l : list A) :
  (∀ x, P x ↔ Q x) → Exists P l ↔ Exists Q l.
Proof.
  intros HPQ. rewrite !Exists_exists. split; intros (x & Hx & HP); exists x;
    (split; [exact Hx | by apply HPQ]).
Qed.

Lemma collectedIds_nil (groups : list SsrcGroup) :
  collectedIds groups = [] ↔ referencedIds groups = [].
Proof.
  split; intros H.
  - destruct (referencedIds groups) as [|s ids] eqn:Hids; [reflexivity|].
    assert (s ∈ collectedIds groups) as Hs
      by (apply collectedIds_elem; rewrite Hids; left).
    rewrite H in Hs. by apply elem_of_nil in Hs.
  - destruct (collectedIds groups) as [|s ids] eqn:Hids; [reflexivity|].
    assert (s ∈ referencedIds groups) as Hs
      by (apply collectedIds_elem; rewrite Hids; left).
    rewrite H in Hs. by apply elem_of_nil in Hs.
Qed.

Lemma reorderSsrcs_throws (m : MLine) :
  reorderSsrcs m = Throw TypeError ↔ reorderingThrows m.
Proof.
  unfold reorderingThrows. split.
  - intros Hrun. destruct (classic_passes m) as [Hp|Hp].
    { rewrite (reorderSsrcs_passesThrough m Hp) in Hrun. discriminate. }
    assert (type m ≠ "audio") as Ht by (intros ?; apply Hp; by left).
    split; [exact Ht|].
    destruct (ssrcGroups m) as [groups|] eqn:Hg; [|exfalso; apply Hp; right; by left].
    assert (groups ≠ []) as Hne by (intros ->; apply Hp; right; by right).
    exists groups. split; [reflexivity|].
    destruct (collectSsrcs_cases groups) as [[Htext Hids]|[Hex _]]; [|by left].
    right. destruct (ssrcs m) as [all|] eqn:Hs.
    { rewrite (reorderSsrcs_grouped m groups all) in Hrun by assumption. discriminate. }
    split; [|reflexivity]. intros Hnil. apply collectedIds_nil in Hnil.
    rewrite (reorderSsrcs_run m groups Ht Hg Hne), Hids, Hnil in Hrun.
    discriminate.
  - intros (Ht & groups & Hg & Hwhy).
    assert (groups ≠ []) as Hne.
    { intros ->. destruct Hwhy as [Hex|[Hids _]]; [by apply Exists_nil in Hex | done]. }
    rewrite (reorderSsrcs_run m groups Ht Hg Hne).
    destruct (collectSsrcs_cases groups) as [[Htext Hrun]|[Hex Hrun]];
      rewrite Hrun; [|reflexivity].
    destruct Hwhy as [Hex|[Hids Hs]].
    { apply Exists_exists in Hex as (g & Hg' & Hn). rewrite Forall_forall in Htext.
      destruct Hn. by apply Htext. }
    cbn. erewrite (foldC_throw _ TypeError); [|intros acc s; by rewrite Hs].
    destruct (collectedIds groups) eqn:Hc; [|reflexivity].
    apply collectedIds_nil in Hc. contradiction.
Qed.

(** X1.  [ensureCorrectOrderOfSsrcs] throws a [TypeError] exactly when some
    section that is not audio has a group whose ids were parsed as a
    number, or has groups listing at least one ssrc id but no ssrc line at
    all; for every other description it returns. *)
Theorem ensureCorrectOrderOfSsrcs_throws_iff
    (parse : string → Parsed) (write : Parsed → string) (description : Description) :
  (ensureCorrectOrderOfSsrcs parse write description = Throw TypeError
   ↔ Exists reorderingThrows (media (parse (sdp description))))
  ∧ (¬ Exists reorderingThrows (media (parse (sdp description))) →
     ∃ description', ensureCorrectOrderOfSsrcs parse write description
                     = Normal description').
Proof.
  assert (ensureCorrectOrderOfSsrcs parse write description = Throw TypeError
          ↔ Exists reorderingThrows (media (parse (sdp description)))) as Hiff.
  { unfold ensureCorrectOrderOfSsrcs, ensureCorrectOrderOfSsrcs_parsed.
    rewrite <- (Exists_equiv _ _ _ reorderSsrcs_throws), <- mapC_Throw.
    destruct (mapC reorderSsrcs (media (parse (sdp description)))) as [ms|e]; cbn.
    - split; discriminate.
    - by rewrite (Error_unique e). }
  split; [exact Hiff|]. intros Hnone.
  destruct (ensureCorrectOrderOfSsrcs parse write description) as [d'|e] eqn:Hrun;
    [eauto|].
  exfalso. apply Hnone, Hiff. by rewrite (Error_unique e).
Qed.

(** The theorem on the sample description, on it once the simulcast
    section has lost its ssrc lines, and on a description whose group lists
    a single id. *)
Lemma ensureCorrectOrderOfSsrcs_throws_iff_witness :
  ¬ Exists reorderingThrows (media (sample_parse (sdp sample_description)))
  ∧ (∃ description',
       ensureCorrectOrderOfSsrcs sample_parse sample_write sample_description
       = Normal description')
  ∧ Exists reorderingThrows
      (media ((λ _, {| media := [audio_section; set_ssrcs simulcast_section None];
                       session_rest := [] |}) (sdp sample_description)))
  ∧ Exists reorderingThrows (media (transform.parse (sdp single_id_description))).
Proof.
  assert (¬ Exists reorderingThrows (media (sample_parse (sdp sample_description))))
    as Hnone.
  { intros Hex.
    apply (proj1 (ensureCorrectOrderOfSsrcs_throws_iff
                    sample_parse sample_write sample_description)) in Hex.
    discriminate Hex. }
  split; [exact Hnone|]. split; [|split].
  - exact (proj2 (ensureCorrectOrderOfSsrcs_throws_iff
                    sample_parse sample_write sample_description) Hnone).
  - apply (proj1 (ensureCorrectOrderOfSsrcs_throws_iff
                    (λ _, {| media := [audio_section; set_ssrcs simulcast_section None];
                             session_rest := [] |})
                    sample_write sample_description)).
    reflexivity.
  - apply (proj1 (ensureCorrectOrderOfSsrcs_throws_iff
                    transform.parse transform.write single_id_description)).
    vm_compute. reflexivity.
Defined.

(** ** A FID pair *)

Lemma split_no_sep (sep : ascii) (s : string) :
  occurs sep s = false → split sep s = [s].
Proof.
  induction s as [|c s IH]; simpl; [reflexivity|].
  intros [Hc Hs]%orb_false_elim. rewrite Hc, (IH Hs). reflexivity.
Qed.

Lemma split_append (sep : ascii) (p r : string) :
  occurs sep p = false → split sep (p +:+ String sep r) = p :: split sep r.
Proof.
  induction p as [|c p IH]; simpl.
  - intros _. by rewrite Ascii.eqb_refl.
  - intros [Hc Hp]%orb_false_elim. rewrite Hc, (IH Hp). reflexivity.
Qed.

Lemma StringSet_add_first (x : string) : StringSet.add StringSet.empty x = [x].
Proof.
  unfold StringSet.add, StringSet.empty.
  case_decide as Hin; [by apply elem_of_nil in Hin | reflexivity].
Qed.

Lemma StringSet_add_second (x y : string) : x ≠ y → StringSet.add [x] y = [x; y].
Proof.
  intros Hne. unfold StringSet.add. case_decide as Hin; [|reflexivity].
  apply list_elem_of_singleton in Hin. congruence.
Qed.

Lemma groupTokens_pair (semantics primary rtx : string) :
  primary ≠ "" → rtx ≠ "" →
  occurs " " primary = false → occurs " " rtx = false →
  groupTokens {| group_semantics := semantics;
                 group_ssrcs := Text (primary +:+ " " +:+ rtx) |}
  = [primary; rtx].
Proof.
  intros Hp Hr Hbp Hbr.
  change (groupTokens _)
    with (filter (λ s, s ≠ "") (split " " (primary +:+ String " " rtx))).
  rewrite (split_append _ _ _ Hbp), (split_no_sep _ _ Hbr).
  rewrite filter_cons_True, filter_cons_True by assumption. reflexivity.
Qed.

(** X2.  For a section that is not audio and whose only group lists a
    primary ssrc and then a different RTX ssrc, the result has all the
    lines of the primary ssrc first and the lines of the RTX ssrc after
    them, each in their input order, and no other line. *)
Theorem reorderSsrcs_primary_before_rtx
    (m : MLine) (semantics primary rtx : string) (all : list SsrcEntry) :
  type m ≠ "audio" →
  ssrcGroups m = Some [ {| group_semantics := semantics;
                           group_ssrcs := Text (primary +:+ " " +:+ rtx) |} ] →
  ssrcs m = Some all →
  primary ≠ "" → rtx ≠ "" → primary ≠ rtx →
  occurs " " primary = false → occurs " " rtx = false →
  reorderSsrcs m
  = Normal (set_ssrcs m
              (Some (filter (λ source, ssrc_id source = primary) all
                     ++ filter (λ source, ssrc_id source = rtx) all))).
Proof.
  intros Ht Hg Hs Hp Hr Hne Hbp Hbr.
  rewrite (reorderSsrcs_grouped m _ all Ht Hg);
    [|done|repeat constructor; by eexists|done].
  unfold collectedIds. simpl foldl.
  rewrite (groupTokens_pair _ _ _ Hp Hr Hbp Hbr). simpl foldl.
  rewrite StringSet_add_first, (StringSet_add_second _ _ Hne).
  rewrite !bind_cons. cbn. by rewrite app_nil_r.
Qed.

(** The theorem on a section whose RTX lines come first in the input. *)
Lemma reorderSsrcs_primary_before_rtx_witness :
  type fid_section ≠ "audio"
  ∧ ssrc_id <$> ssrcLines fid_section = ["2002"; "1001"; "2002"; "1001"]
  ∧ ∃ m', reorderSsrcs fid_section = Normal m'
          ∧ ssrc_id <$> ssrcLines m' = ["1001"; "1001"; "2002"; "2002"].
Proof.
  split; [discriminate|]. split; [reflexivity|].
  eexists. split.
  - apply (reorderSsrcs_primary_before_rtx fid_section "FID" "1001" "2002");
      first [reflexivity | discriminate].
  - reflexivity.
Defined.

(** ** insertUnifiedPlanSimulcastReceive: the other paths *)

Lemma advertises_test (m : MLine) :
  bool_decide (is_Some (rids m))
  && (bool_decide (is_Some (simulcast_03 m)) || bool_decide (is_Some (simulcast m)))
  = true
  ↔ advertisesSimulcast m.
Proof.
  unfold advertisesSimulcast.
  rewrite andb_true_iff, orb_true_iff, !bool_decide_eq_true. tauto.
Qed.

(** X3.  On a browser that does not munge the SDP,
    [insertUnifiedPlanSimulcastReceive] throws a [TypeError] exactly when
    the description has no video section. *)
Theorem insertUnifiedPlanSimulcastReceive_throws_iff
    (browser : Browser) (parse : string → Parsed) (write : Parsed → string)
    (desc : Description) :
  usesSdpMungingForSimulcast browser = false →
  (insertUnifiedPlanSimulcastReceive browser parse write desc = Throw TypeError
   ↔ Forall (λ mline, type mline ≠ "video") (media (parse (sdp desc)))).
Proof.
  intros Hmunge. unfold insertUnifiedPlanSimulcastReceive. rewrite Hmunge.
  destruct (list_find _ (media (parse (sdp desc)))) as [[idx first]|] eqn:Hfind.
  - split.
    + intros H. by destruct (_ && _).
    + intros Hall. apply (proj2 (list_find_None _ _)) in Hall. congruence.
  - split; [|reflexivity]. intros _. by apply (proj1 (list_find_None _ _)).
Qed.

(** The theorem on an offer that has only an audio section. *)
Lemma insertUnifiedPlanSimulcastReceive_throws_iff_witness :
  usesSdpMungingForSimulcast chrome = false
  ∧ insertUnifiedPlanSimulcastReceive chrome
      (λ _, {| media := [audio_section]; session_rest := [] |})
      rid_summary sample_description
    = Throw TypeError.
Proof.
  split; [reflexivity|].
  apply (insertUnifiedPlanSimulcastReceive_throws_iff chrome
           (λ _, {| media := [audio_section]; session_rest := [] |})
           rid_summary sample_description eq_refl).
  repeat constructor. discriminate.
Defined.

(** X4.  On a browser that does not munge the SDP, for a description with a
    video section the call returns, and in the description it writes the
    first video section is at the same place and advertises simulcast (it
    has rids and a simulcast attribute); the sections keep their number and
    types, and every section that is not video is unchanged. *)
Theorem insertUnifiedPlanSimulcastReceive_advertises
    (browser : Browser) (parse : string → Parsed) (write : Parsed → string)
    (desc : Description) (idx : nat) (first : MLine) :
  usesSdpMungingForSimulcast browser = false →
  list_find (λ mline, type mline = "video") (media (parse (sdp desc)))
    = Some (idx, first) →
  ∃ media' first',
    insertUnifiedPlanSimulcastReceive browser parse write desc
    = Normal {| desc_type := desc_type desc;
                sdp := write (set_media (parse (sdp desc)) media') |}
    ∧ list_find (λ mline, type mline = "video") media' = Some (idx, first')
    ∧ advertisesSimulcast first'
    ∧ type <$> media' = type <$> media (parse (sdp desc))
    ∧ (∀ i m, media (parse (sdp desc)) !! i = Some m → type m ≠ "video" →
              media' !! i = Some m).
Proof.
  intros Hmunge Hfind. unfold insertUnifiedPlanSimulcastReceive.
  rewrite Hmunge, Hfind.
  pose proof Hfind as (Hidx & Hvideo & Hbefore)%list_find_Some.
  destruct (_ && _) eqn:Htest.
  - apply advertises_test in Htest.
    eexists _, first. split; [reflexivity|]. split_and!.
    + apply list_find_Some. split_and!.
      * rewrite list_lookup_imap, Hidx. simpl.
        by rewrite Nat.eqb_refl, andb_false_r.
      * exact Hvideo.
      * intros j y Hj Hlt. rewrite list_lookup_imap in Hj.
        destruct (media (parse (sdp desc)) !! j) as [m|] eqn:Hm; [|discriminate].
        injection Hj as <-. specialize (Hbefore j m Hm Hlt).
        by rewrite bool_decide_eq_false_2.
    + exact Htest.
    + apply list_eq. intros i. rewrite !list_lookup_fmap, list_lookup_imap.
      destruct (media (parse (sdp desc)) !! i) as [m|]; [|reflexivity].
      simpl. by destruct (_ && _).
    + intros i m Hm Hnv. rewrite list_lookup_imap, Hm. simpl.
      by rewrite bool_decide_eq_false_2.
  - eexists _, _. split; [reflexivity|].
    assert (idx < length (media (parse (sdp desc)))) as Hlt
      by (by eapply lookup_lt_Some).
    split_and!.
    + apply list_find_Some. split_and!.
      * by apply list_lookup_insert_eq.
      * exact Hvideo.
      * intros j y Hj Hjlt. rewrite list_lookup_insert_ne in Hj by lia.
        by apply (Hbefore j y).
    + split; simpl; eauto.
    + apply list_eq. intros i. rewrite !list_lookup_fmap.
      destruct (decide (i = idx)) as [->|Hne].
      * rewrite list_lookup_insert_eq, Hidx by assumption. reflexivity.
      * by rewrite list_lookup_insert_ne.
    + intros i m Hm Hnv. rewrite list_lookup_insert_ne; [assumption|].
      intros <-. congruence.
Qed.

(** The theorem on the plain offer. *)
Lemma insertUnifiedPlanSimulcastReceive_advertises_witness :
  usesSdpMungingForSimulcast firefox = false
  ∧ list_find (λ mline, type mline = "video") (media (plain_parse "v=0"))
    = Some (1, plain_video_section)
  ∧ ∃ media' first',
      insertUnifiedPlanSimulcastReceive firefox plain_parse rid_summary sample_description
      = Normal {| desc_type := "offer";
                  sdp := rid_summary (set_media plain_offer_parsed media') |}
      ∧ list_find (λ mline, type mline = "video") media' = Some (1, first')
      ∧ advertisesSimulcast first'.
Proof.
  split; [reflexivity|]. split; [reflexivity|].
  destruct (insertUnifiedPlanSimulcastReceive_advertises
              firefox plain_parse rid_summary sample_description 1 plain_video_section
              eq_refl eq_refl)
    as (media' & first' & Hrun & Hfind & Hadv & _).
  exists media', first'. split_and!; assumption.
Defined.

(** X5.  When the first video section already advertises simulcast, the
    call writes the description in which every other video section is
    stripped of its rid and simulcast attributes and every remaining
    section, the first video one included, is unchanged: in the result no
    video section but the first advertises simulcast. *)
Theorem insertUnifiedPlanSimulcastReceive_strips_others
    (browser : Browser) (parse : string → Parsed) (write : Parsed → string)
    (desc : Description) (idx : nat) (first : MLine) :
  usesSdpMungingForSimulcast browser = false →
  list_find (λ mline, type mline = "video") (media (parse (sdp desc)))
    = Some (idx, first) →
  advertisesSimulcast first →
  ∃ media',
    insertUnifiedPlanSimulcastReceive browser parse write desc
    = Normal {| desc_type := desc_type desc;
                sdp := write (set_media (parse (sdp desc)) media') |}
    ∧ (∀ i m, media (parse (sdp desc)) !! i = Some m →
              media' !! i
              = Some (if decide (type m = "video" ∧ i ≠ idx)
                      then withoutSimulcast m else m))
    ∧ length media' = length (media (parse (sdp desc)))
    ∧ (∀ i m', media' !! i = Some m' → type m' = "video" →
               advertisesSimulcast m' → i = idx).
Proof.
  intros Hmunge Hfind Hadv. unfold insertUnifiedPlanSimulcastReceive.
  rewrite Hmunge, Hfind, (proj2 (advertises_test first) Hadv).
  eexists. split; [reflexivity|].
  assert (∀ i m, media (parse (sdp desc)) !! i = Some m →
            imap (λ i mline,
                    if bool_decide (type mline = "video") && negb (i =? idx)
                    then set_simulcast_03 (set_simulcast (set_rids mline None) None) None
                    else mline) (media (parse (sdp desc))) !! i
            = Some (if decide (type m = "video" ∧ i ≠ idx)
                    then withoutSimulcast m else m)) as Hlook.
  { intros i m Hm. rewrite list_lookup_imap, Hm. simpl. f_equal.
    destruct (decide (type m = "video" ∧ i ≠ idx)) as [[Hv Hi]|Hn].
    - rewrite bool_decide_eq_true_2 by assumption.
      by rewrite (proj2 (Nat.eqb_neq i idx) Hi).
    - destruct (decide (type m = "video")) as [Hv|Hv].
      + assert (i = idx) as -> by (destruct (decide (i = idx)); [done | tauto]).
        by rewrite Nat.eqb_refl, andb_false_r.
      + by rewrite bool_decide_eq_false_2. }
  split_and!.
  - exact Hlook.
  - apply length_imap.
  - intros i m' Hm' Hvideo Hadv'.
    destruct (media (parse (sdp desc)) !! i) as [m|] eqn:Hm.
    + rewrite (Hlook i m Hm) in Hm'. injection Hm' as <-.
      destruct (decide (type m = "video" ∧ i ≠ idx)) as [[_ Hi]|Hn].
      * destruct Hadv' as [[? Hr] _]. discriminate Hr.
      * destruct (decide (i = idx)); [done | tauto].
    + rewrite list_lookup_imap, Hm in Hm'. discriminate.
Qed.

(** The theorem on an offer with two video sections that both advertise
    simulcast: the second one loses its attributes. *)
Lemma insertUnifiedPlanSimulcastReceive_strips_others_witness :
  usesSdpMungingForSimulcast chrome = false
  ∧ list_find (λ mline, type mline = "video") (media double_simulcast_parsed)
    = Some (1, simulcast_video_section)
  ∧ advertisesSimulcast simulcast_video_section
  ∧ insertUnifiedPlanSimulcastReceive chrome (λ _, double_simulcast_parsed)
      rid_summary sample_description
    = Normal {| desc_type := "offer"; sdp := "1/recv rid=1|/" |}.
Proof.
  assert (advertisesSimulcast simulcast_video_section) as Hadv.
  { split; [eexists; reflexivity | left; eexists; reflexivity]. }
  split; [reflexivity|]. split; [reflexivity|]. split; [exact Hadv|].
  destruct (insertUnifiedPlanSimulcastReceive_strips_others
              chrome (λ _, double_simulcast_parsed) rid_summary sample_description
              1 simulcast_video_section eq_refl eq_refl Hadv)
    as (media' & -> & Hlook & Hlen & _).
  destruct media' as [|m0 [|m1 [|m2 [|]]]]; try discriminate Hlen.
  pose proof (Hlook 0 _ eq_refl) as H0. pose proof (Hlook 1 _ eq_refl) as H1.
  pose proof (Hlook 2 _ eq_refl) as H2.
  injection H0 as ->. injection H1 as ->. injection H2 as ->. reflexivity.
Defined.

(** ** calculateEncodingsActiveState: further properties *)

Lemma js_le_mono (x : option Q) (r r' : Z) :
  (r <= r')%Z → js_le x r = true → js_le x r' = true.
Proof.
  intros Hr. destruct x as [x|]; simpl; [|done].
  rewrite !Qle_bool_iff. intros Hx.
  eapply Qle_trans; [exact Hx|]. by rewrite <- Zle_Qle.
Qed.

(** X6.  Asking for a larger height never switches a layer off: a layer
    that is active for [newHeight] is active for every larger request, for
    every track, browser and state of the connection. *)
Theorem calculateEncodingsActiveState_monotone
    (browser : Browser) (this : TPCUtils) (track : JitsiLocalTrack)
    (newHeight newHeight' : Z) (idx : nat) :
  (newHeight <= newHeight')%Z →
  calculateEncodingsActiveState browser this track newHeight !! idx = Some true →
  calculateEncodingsActiveState browser this track newHeight' !! idx = Some true.
Proof.
  intros Hr. unfold calculateEncodingsActiveState.
  rewrite !list_lookup_imap, !list_lookup_fmap.
  destruct (localStreamEncodingsConfig browser this !! idx) as [encoding|];
    [|discriminate].
  simpl. destruct (_ && negb (js_strict_eq _ HD_SCALE_FACTOR)); [discriminate|].
  destruct (String.eqb (getVideoType track) VideoType.CAMERA); [|done].
  destruct (js_strict_eq (scaleResolutionDownBy encoding) LD_SCALE_FACTOR).
  - rewrite !andb_true_r.
    destruct (0 <? newHeight)%Z eqn:Hpos.
    + apply Z.ltb_lt in Hpos. by rewrite (proj2 (Z.ltb_lt 0 newHeight')) by lia.
    + intros [= Hle]. destruct (0 <? newHeight')%Z; [reflexivity|].
      by rewrite (js_le_mono _ _ _ Hr Hle).
  - rewrite !andb_false_r. intros [= Hle]. by rewrite (js_le_mono _ _ _ Hr Hle).
Qed.

(** The theorem for the low layer of a 720p camera: active for 180, so
    active for 360. *)
Lemma calculateEncodingsActiveState_monotone_witness :
  (180 <= 360)%Z
  ∧ calculateEncodingsActiveState chrome sample_utils camera_track_720 180 !! 0
    = Some true
  ∧ calculateEncodingsActiveState chrome sample_utils camera_track_720 360 !! 0
    = Some true.
Proof.
  assert (180 <= 360)%Z as H by lia.
  split; [exact H|]. split; [reflexivity|].
  exact (calculateEncodingsActiveState_monotone
           chrome sample_utils camera_track_720 180 360 0 H eq_refl).
Defined.

(** X7.  For a camera track captured at a positive height, a request of
    height 0 (or less) switches every layer off, and a request of at least
    the capture height switches every layer on. *)
Theorem calculateEncodingsActiveState_camera_extremes
    (browser : Browser) (this : TPCUtils) (track : JitsiLocalTrack) (h newHeight : Z) :
  getVideoType track = VideoType.CAMERA →
  settings_height (getTrack track) = Some h →
  (0 < h)%Z →
  ((newHeight <= 0)%Z →
   calculateEncodingsActiveState browser this track newHeight = [false; false; false])
  ∧ ((h <= newHeight)%Z →
     calculateEncodingsActiveState browser this track newHeight = [true; true; true]).
Proof.
  intros Hcam Hh Hpos.
  unfold calculateEncodingsActiveState, localStreamEncodingsConfig.
  rewrite Hcam, Hh. simpl String.eqb.
  assert (∀ b c d, b && false && c && d = false) as Hoff
    by (intros b c d; by rewrite andb_false_r).
  split; intros Hr.
  - rewrite (proj2 (Z.ltb_ge 0 newHeight)) by lia.
    destruct (isFirefox browser); cbn -[Z.mul Z.leb]; rewrite !Hoff;
      repeat f_equal; unfold Qle_bool; cbn -[Z.mul Z.leb]; apply Z.leb_gt; lia.
  - rewrite (proj2 (Z.ltb_lt 0 newHeight)) by lia.
    destruct (isFirefox browser); cbn -[Z.mul Z.leb]; rewrite !Hoff;
      repeat f_equal; unfold Qle_bool; cbn -[Z.mul Z.leb];
      try reflexivity; apply Z.leb_le; lia.
Qed.

(** The theorem for a 720p camera on Firefox. *)
Lemma calculateEncodingsActiveState_camera_extremes_witness :
  getVideoType camera_track_720 = VideoType.CAMERA
  ∧ settings_height (getTrack camera_track_720) = Some 720%Z
  ∧ (0 < 720)%Z
  ∧ calculateEncodingsActiveState firefox sample_utils camera_track_720 0
    = [false; false; false]
  ∧ calculateEncodingsActiveState firefox sample_utils camera_track_720 1080
    = [true; true; true].
Proof.
  assert (0 < 720)%Z as Hpos by lia.
  destruct (calculateEncodingsActiveState_camera_extremes
              firefox sample_utils camera_track_720 720 0 eq_refl eq_refl Hpos)
    as [Hoff _].
  destruct (calculateEncodingsActiveState_camera_extremes
              firefox sample_utils camera_track_720 720 1080 eq_refl eq_refl Hpos)
    as [_ Hon].
  split_and!; [reflexivity | reflexivity | exact Hpos | apply Hoff; lia | apply Hon; lia].
Defined.

(** X8.  For a desktop track the flags depend neither on the requested nor
    on the captured height.  During low-fps screen sharing in unified plan
    on a browser that is not WebKit based, only the layer with scale factor
    1 is active (the last layer, the first one on Firefox); in every other
    case all three layers are active. *)
Theorem calculateEncodingsActiveState_desktop
    (browser : Browser) (this : TPCUtils) (track : JitsiLocalTrack) (newHeight : Z) :
  getVideoType track = VideoType.DESKTOP →
  calculateEncodingsActiveState browser this track newHeight
  = if isSharingLowFpsScreen (pc this) && usesUnifiedPlan (pc this)
       && negb (isWebKitBased browser)
    then (if isFirefox browser then [true; false; false] else [false; false; true])
    else [true; true; true].
Proof.
  intros Hdesk. unfold calculateEncodingsActiveState, localStreamEncodingsConfig.
  rewrite Hdesk. simpl String.eqb.
  destruct (isSharingLowFpsScreen (pc this)), (usesUnifiedPlan (pc this)),
    (isWebKitBased browser), (isFirefox browser); reflexivity.
Qed.

(** The theorem for a shared screen on Chrome during low-fps sharing. *)
Lemma calculateEncodingsActiveState_desktop_witness :
  getVideoType desktop_track = VideoType.DESKTOP
  ∧ calculateEncodingsActiveState chrome lowfps_default_utils desktop_track 180
    = [false; false; true].
Proof.
  split; [reflexivity|].
  exact (calculateEncodingsActiveState_desktop
           chrome lowfps_default_utils desktop_track 180 eq_refl).
Defined.

(** ** calculateEncodingsBitrates: undefined entries *)

(** X9.  [calculateEncodingsBitrates] gives three entries.  One of them is
    undefined exactly for a desktop track on a Chromium based browser
    outside unified plan, when the low-fps flat rate does not apply (no
    low-fps sharing, or a WebKit based browser); then all three are
    undefined.  In unified plan no entry is ever undefined. *)
Theorem calculateEncodingsBitrates_undefined
    (browser : Browser) (this : TPCUtils) (track : JitsiLocalTrack) :
  length (calculateEncodingsBitrates browser this track) = 3
  ∧ (None ∈ calculateEncodingsBitrates browser this track
     ↔ isSharingLowFpsScreen (pc this) && negb (isWebKitBased browser) = false
       ∧ getVideoType track = VideoType.DESKTOP
       ∧ isChromiumBased browser = true
       ∧ usesUnifiedPlan (pc this) = false)
  ∧ (None ∈ calculateEncodingsBitrates browser this track →
     calculateEncodingsBitrates browser this track = [None; None; None])
  ∧ (usesUnifiedPlan (pc this) = true →
     Forall is_Some (calculateEncodingsBitrates browser this track)).
Proof.
  assert (∀ x : Z, (None : option Z) ∈ [Some x; Some x; Some x] → False) as Hflat.
  { intros x H. repeat (apply elem_of_cons in H as [H|H]; [discriminate|]).
    by apply elem_of_nil in H. }
  assert (∀ x y z : Z, (None : option Z) ∈ [Some x; Some y; Some z] → False) as Hconf.
  { intros x y z H. repeat (apply elem_of_cons in H as [H|H]; [discriminate|]).
    by apply elem_of_nil in H. }
  unfold calculateEncodingsBitrates, localStreamEncodingsConfig.
  destruct (isSharingLowFpsScreen (pc this) && negb (isWebKitBased browser));
    simpl map.
  - split_and!; [reflexivity | | | by repeat constructor].
    + split; [by intros ?%Hflat | by intros [[=] _]].
    + by intros ?%Hflat.
  - destruct (String.eqb_spec (getVideoType track) VideoType.DESKTOP) as [Hd|Hd];
      destruct (isChromiumBased browser), (usesUnifiedPlan (pc this)); simpl;
      (split_and!;
       [ reflexivity
       | split; [ first [ by intros ?%Hconf | intros _; done ]
                | first [ intros _; left | intros (_ & ? & ? & ?); congruence ] ]
       | first [ by intros ?%Hconf | reflexivity ]
       | first [ by repeat constructor | discriminate ] ]).
Qed.

(** The theorem for a shared screen on Chrome in plan B, where all entries
    are undefined, and in unified plan, where none is. *)
Lemma calculateEncodingsBitrates_undefined_witness :
  None ∈ calculateEncodingsBitrates chrome planb_utils desktop_track
  ∧ calculateEncodingsBitrates chrome planb_utils desktop_track = [None; None; None]
  ∧ usesUnifiedPlan (pc sample_utils) = true
  ∧ Forall is_Some (calculateEncodingsBitrates chrome sample_utils desktop_track).
Proof.
  destruct (calculateEncodingsBitrates_undefined chrome planb_utils desktop_track)
    as (_ & Hiff & Hall & _).
  destruct (calculateEncodingsBitrates_undefined chrome sample_utils desktop_track)
    as (_ & _ & _ & Hunified).
  assert (None ∈ calculateEncodingsBitrates chrome planb_utils desktop_track) as Hin.
  { apply Hiff. by split_and!. }
  split_and!; [exact Hin | exact (Hall Hin) | reflexivity | exact (Hunified eq_refl)].
Defined.

(** ** getLocalStreamHeightConstraints *)

Lemma foldl_push {A B} (f : A → B) (l : list A) (acc : list B) :
  foldl (λ acc x, acc ++ [f x]) acc l = acc ++ map f l.
Proof.
  revert acc. induction l as [|x l IH]; intros acc; simpl.
  - by rewrite app_nil_r.
  - by rewrite IH, <- app_assoc.
Qed.

(** X10.  On React Native [getLocalStreamHeightConstraints] returns [null].
    On any other browser it returns one height per layer, and for a camera
    track these are the heights [calculateEncodingsActiveState] compares
    with the request: every layer whose height is at most [newHeight] is
    active, and for a request of 0 or less no other layer is. *)
Theorem getLocalStreamHeightConstraints_agrees
    (browser : Browser) (this : TPCUtils) (track : JitsiLocalTrack) (newHeight : Z) :
  (isReactNative browser = true →
   getLocalStreamHeightConstraints browser this (getTrack track) = None)
  ∧ (isReactNative browser = false →
     ∃ heights,
       getLocalStreamHeightConstraints browser this (getTrack track) = Some heights
       ∧ length heights = length (localStreamEncodingsConfig browser this)
       ∧ (getVideoType track = VideoType.CAMERA →
          (∀ idx height,
             heights !! idx = Some height → js_le height newHeight = true →
             calculateEncodingsActiveState browser this track newHeight !! idx
             = Some true)
          ∧ ((newHeight <= 0)%Z →
             calculateEncodingsActiveState browser this track newHeight
             = (λ height, js_le height newHeight) <$> heights))).
Proof.
  unfold getLocalStreamHeightConstraints. split; intros Hrn; rewrite Hrn; [reflexivity|].
  eexists. split; [reflexivity|]. rewrite foldl_push, app_nil_l.
  split; [by rewrite length_map|]. intros Hcam.
  unfold calculateEncodingsActiveState. rewrite Hcam. simpl String.eqb.
  split.
  - intros idx height Hidx Hle.
    rewrite list_lookup_imap, Hidx. simpl. rewrite Hle.
    rewrite andb_false_r. simpl. by destruct (_ && _).
  - intros Hr. rewrite (proj2 (Z.ltb_ge 0 newHeight)) by lia.
    apply list_eq. intros idx. rewrite list_lookup_imap, !list_lookup_fmap.
    destruct (localStreamEncodingsConfig browser this !! idx); [|reflexivity].
    simpl. by rewrite andb_false_r.
Qed.

(** The theorem for a 720p camera on Chrome. *)
Lemma getLocalStreamHeightConstraints_agrees_witness :
  isReactNative chrome = false
  ∧ getLocalStreamHeightConstraints chrome sample_utils (getTrack camera_track_720)
    = Some [Some (720 # 4)%Q; Some (720 # 2)%Q; Some (720 # 1)%Q]
  ∧ ∃ heights,
      getLocalStreamHeightConstraints chrome sample_utils (getTrack camera_track_720)
      = Some heights
      ∧ length heights = length (localStreamEncodingsConfig chrome sample_utils).
Proof.
  split; [reflexivity|]. split; [reflexivity|].
  destruct (proj2 (getLocalStreamHeightConstraints_agrees
                     chrome sample_utils camera_track_720 180) eq_refl)
    as (heights & Hrun & Hlen & _).
  exists heights. by split.
Defined.

(** ** The transceivers under the sender operations *)

Lemma with_transceivers_same (this : TPCUtils) :
  with_transceivers this (transceivers (pc this)) = this.
Proof. by destruct this as [[] ?]. Qed.

Lemma with_transceivers_twice (this : TPCUtils) (ts ts' : list RTCRtpTransceiver) :
  with_transceivers (with_transceivers this ts) ts' = with_transceivers this ts'.
Proof. reflexivity. Qed.

Lemma list_find_insert_same {A} (P : A → Prop) `{∀ x, Decision (P x)}
    (l : list A) (i : nat) (x y : A) :
  list_find P l = Some (i, x) → P y → list_find P (<[i := y]> l) = Some (i, y).
Proof.
  intros (Hi & HP & Hbefore)%list_find_Some Hy. apply list_find_Some. split_and!.
  - apply list_lookup_insert_eq. by eapply lookup_lt_Some.
  - exact Hy.
  - intros j z Hj Hlt. rewrite list_lookup_insert_ne in Hj by lia.
    by apply (Hbefore j z).
Qed.

Lemma list_find_insert_gone {A} (P : A → Prop) `{∀ x, Decision (P x)}
    (l : list A) (i : nat) (y : A) :
  ¬ P y → (∀ j z, l !! j = Some z → j ≠ i → ¬ P z) →
  list_find P (<[i := y]> l) = None.
Proof.
  intros Hy Hothers. apply list_find_None, Forall_forall. intros z Hz.
  apply list_elem_of_lookup in Hz as [j Hj].
  destruct (decide (j = i)) as [->|Hne].
  - assert (i < length l) as Hlt.
    { apply lookup_lt_Some in Hj. by rewrite length_insert in Hj. }
    rewrite list_lookup_insert_eq in Hj by assumption. by injection Hj as <-.
  - rewrite list_lookup_insert_ne in Hj by done. by apply (Hothers j z).
Qed.

(** X11.  When some sender holds a track of the kind of [track],
    [setEncodings] resolves, and it changes only the encodings of the first
    such sender, which become the encodings selected for the track: every
    other transceiver, and the direction, track and streams of that one,
    are as before, as is the map of local tracks.  Calling it again changes
    nothing more. *)
Theorem setEncodings_installs
    (browser : Browser) (this : TPCUtils) (track : JitsiLocalTrack)
    (i : nat) (transceiver : RTCRtpTransceiver) :
  list_find (λ t, kind <$> sender_track t = Some (getType track))
            (transceivers (pc this)) = Some (i, transceiver) →
  ∃ this',
    setEncodings browser this track = (Resolved (), this')
    ∧ transceivers (pc this') !! i
      = Some (sender_setEncodings transceiver (_getStreamEncodings browser this track))
    ∧ (∀ j, j ≠ i → transceivers (pc this') !! j = transceivers (pc this) !! j)
    ∧ direction <$> transceivers (pc this') = direction <$> transceivers (pc this)
    ∧ sender_track <$> transceivers (pc this') = sender_track <$> transceivers (pc this)
    ∧ localTracks (pc this') = localTracks (pc this)
    ∧ setEncodings browser this' track = (Resolved (), this').
Proof.
  intros Hfind. unfold setEncodings at 1. rewrite Hfind. eexists. split; [reflexivity|].
  pose proof Hfind as (Hi & HP & _)%list_find_Some.
  assert (i < length (transceivers (pc this))) as Hlt by (by eapply lookup_lt_Some).
  simpl. split_and!.
  - by apply list_lookup_insert_eq.
  - intros j Hj. by apply list_lookup_insert_ne.
  - rewrite list_fmap_insert. simpl. by apply list_insert_id; rewrite list_lookup_fmap, Hi.
  - rewrite list_fmap_insert. simpl. by apply list_insert_id; rewrite list_lookup_fmap, Hi.
  - reflexivity.
  - unfold setEncodings. simpl transceivers.
    erewrite list_find_insert_same; [|exact Hfind|exact HP].
    f_equal. unfold with_transceivers, with_pc, set_transceivers. simpl.
    by rewrite list_insert_insert_eq.
Qed.

(** The theorem on a connection that sends a camera. *)
Lemma setEncodings_installs_witness :
  list_find (λ t, kind <$> sender_track t = Some (getType camera_track_720))
            (transceivers (pc sending_utils)) = Some (1, camera_sender)
  ∧ ∃ this',
      setEncodings chrome sending_utils camera_track_720 = (Resolved (), this')
      ∧ sender_encodings <$> transceivers (pc this') !! 1
        = Some (localStreamEncodingsConfig chrome sending_utils)
      ∧ setEncodings chrome this' camera_track_720 = (Resolved (), this').
Proof.
  split; [reflexivity|].
  destruct (setEncodings_installs chrome sending_utils camera_track_720 1 camera_sender
              eq_refl) as (this' & Hrun & Hi & _ & _ & _ & _ & Hagain).
  exists this'. split; [exact Hrun|]. split; [|exact Hagain].
  rewrite Hi. reflexivity.
Defined.

(** ** Mute and unmute *)

Lemma sender_replaceTrack_back (t : RTCRtpTransceiver) (old : option MediaStreamTrack)
    (track : option MediaStreamTrack) :
  sender_track t = track →
  sender_replaceTrack (sender_replaceTrack t old) track = t.
Proof. intros <-. by destruct t. Qed.

(** X12.  When one transceiver, and only that one, sends the track,
    [removeTrackMute] resolves: it clears the sender's track and leaves the
    number and the directions of the transceivers as they are.  A second
    [removeTrackMute] for the same track then finds no transceiver: it
    rejects and changes nothing. *)
Theorem removeTrackMute_twice
    (this : TPCUtils) (localTrack : JitsiLocalTrack)
    (i : nat) (transceiver : RTCRtpTransceiver) :
  list_find (λ t, track_id <$> sender_track t = Some (getTrackId localTrack))
            (transceivers (pc this)) = Some (i, transceiver) →
  (∀ j t, transceivers (pc this) !! j = Some t → j ≠ i →
          track_id <$> sender_track t ≠ Some (getTrackId localTrack)) →
  ∃ this',
    removeTrackMute this localTrack = (Resolved (), this')
    ∧ transceivers (pc this') !! i = Some (sender_replaceTrack transceiver None)
    ∧ length (transceivers (pc this')) = length (transceivers (pc this))
    ∧ direction <$> transceivers (pc this') = direction <$> transceivers (pc this)
    ∧ removeTrackMute this' localTrack
      = (Rejected ("RTCRtpTransceiver for " +:+ getType localTrack +:+ " not found"),
         this').
Proof.
  intros Hfind Hunique. unfold removeTrackMute at 1. rewrite Hfind.
  eexists. split; [reflexivity|].
  pose proof Hfind as (Hi & _ & _)%list_find_Some.
  assert (i < length (transceivers (pc this))) as Hlt by (by eapply lookup_lt_Some).
  simpl. split_and!.
  - by apply list_lookup_insert_eq.
  - apply length_insert.
  - rewrite list_fmap_insert. simpl. by apply list_insert_id; rewrite list_lookup_fmap, Hi.
  - unfold removeTrackMute. simpl transceivers.
    rewrite list_find_insert_gone; [reflexivity | discriminate | exact Hunique].
Qed.

(** The theorem for the camera of [sending_utils]. *)
Lemma removeTrackMute_twice_witness :
  list_find (λ t, track_id <$> sender_track t = Some (getTrackId camera_track_720))
            (transceivers (pc sending_utils)) = Some (1, camera_sender)
  ∧ ∃ this',
      removeTrackMute sending_utils camera_track_720 = (Resolved (), this')
      ∧ removeTrackMute this' camera_track_720
        = (Rejected "RTCRtpTransceiver for video not found", this').
Proof.
  split; [reflexivity|].
  destruct (removeTrackMute_twice sending_utils camera_track_720 1 camera_sender eq_refl)
    as (this' & Hrun & _ & _ & _ & Hagain).
  { intros [|[|[|j]]] t Hj Hne; simplify_eq/=; discriminate. }
  exists this'. by split.
Defined.

(** X13.  Mute then unmute is a round trip when the transceiver that sends
    the track is the first one of the track's kind and is not receive-only:
    [removeTrackMute] followed by [addTrackUnmute] resolves and gives back
    the connection as it was. *)
Theorem removeTrackMute_addTrackUnmute
    (browser : Browser)
    (addStream : MediaStream → list RTCRtpTransceiver → list RTCRtpTransceiver)
    (this : TPCUtils) (localTrack : JitsiLocalTrack)
    (i : nat) (transceiver : RTCRtpTransceiver) :
  list_find (λ t, track_id <$> sender_track t = Some (getTrackId localTrack))
            (transceivers (pc this)) = Some (i, transceiver) →
  list_find (λ t, receiver_kind t = getType localTrack)
            (transceivers (pc this)) = Some (i, transceiver) →
  sender_track transceiver = Some (getTrack localTrack) →
  direction transceiver ≠ RECVONLY →
  ∃ muted,
    removeTrackMute this localTrack = (Resolved (), muted)
    ∧ sender_track <$> transceivers (pc muted) !! i = Some None
    ∧ addTrackUnmute browser addStream muted localTrack = (Resolved (), this).
Proof.
  intros Hheld Hfirst Htrack Hdir. unfold removeTrackMute. rewrite Hheld.
  eexists. split; [reflexivity|].
  pose proof Hheld as (Hi & _ & _)%list_find_Some.
  assert (i < length (transceivers (pc this))) as Hlt by (by eapply lookup_lt_Some).
  simpl transceivers. split.
  - by rewrite list_lookup_insert_eq.
  - unfold addTrackUnmute. simpl transceivers.
    erewrite list_find_insert_same;
      [|exact Hfirst|by apply list_find_Some in Hfirst as (_ & ? & _)].
    simpl direction. rewrite decide_False by assumption.
    rewrite with_transceivers_twice, list_insert_insert_eq.
    rewrite (sender_replaceTrack_back _ _ _ Htrack).
    rewrite list_insert_id by assumption. by rewrite with_transceivers_same.
Qed.

(** The theorem for the camera of [sending_utils]. *)
Lemma removeTrackMute_addTrackUnmute_witness :
  list_find (λ t, track_id <$> sender_track t = Some (getTrackId camera_track_720))
            (transceivers (pc sending_utils)) = Some (1, camera_sender)
  ∧ list_find (λ t, receiver_kind t = getType camera_track_720)
              (transceivers (pc sending_utils)) = Some (1, camera_sender)
  ∧ sender_track camera_sender = Some (getTrack camera_track_720)
  ∧ direction camera_sender ≠ RECVONLY
  ∧ addTrackUnmute chrome no_addStream
      (removeTrackMute sending_utils camera_track_720).2 camera_track_720
    = (Resolved (), sending_utils).
Proof.
  assert (direction camera_sender ≠ RECVONLY) as Hdir by discriminate.
  split_and!; [reflexivity | reflexivity | reflexivity | exact Hdir |].
  destruct (removeTrackMute_addTrackUnmute chrome no_addStream sending_utils
              camera_track_720 1 camera_sender eq_refl eq_refl eq_refl Hdir)
    as (muted & Hmute & _ & Hunmute).
  rewrite Hmute. exact Hunmute.
Defined.

Lemma setEncodings_throws_none
    (browser : Browser) (this : TPCUtils) (track : JitsiLocalTrack) :
  Forall (λ t, kind <$> sender_track t ≠ Some (getType track))
         (transceivers (pc this)) →
  setEncodings browser this track = (Thrown TypeError, this).
Proof.
  intros Hnone. unfold setEncodings.
  by rewrite (proj2 (list_find_None _ _) Hnone).
Qed.

(** X14.  Unmuting on a receive-only transceiver with an original stream
    first hands the stream to the connection.  If afterwards some sender
    holds a track of the kind, the call resolves: the track is recorded in
    the map of local tracks under its [rtcId] and the transceiver found at
    the start is set to sendrecv.  If no sender does, the call throws, and
    the connection stays as [addStream] left it: the track is not recorded
    and the transceiver stays receive-only. *)
Theorem addTrackUnmute_recvonly_with_stream
    (browser : Browser)
    (addStream : MediaStream → list RTCRtpTransceiver → list RTCRtpTransceiver)
    (this : TPCUtils) (localTrack : JitsiLocalTrack)
    (i : nat) (transceiver : RTCRtpTransceiver) (stream : MediaStream) :
  list_find (λ t, receiver_kind t = getType localTrack) (transceivers (pc this))
    = Some (i, transceiver) →
  direction transceiver = RECVONLY →
  getOriginalStream localTrack = Some stream →
  let added := addStream stream (transceivers (pc this)) in
  (Forall (λ t, kind <$> sender_track t ≠ Some (getType localTrack)) added →
   addTrackUnmute browser addStream this localTrack
   = (Thrown TypeError, with_transceivers this added))
  ∧ (∀ j sender,
       list_find (λ t, kind <$> sender_track t = Some (getType localTrack)) added
         = Some (j, sender) →
       i < length added →
       ∃ this',
         addTrackUnmute browser addStream this localTrack = (Resolved (), this')
         ∧ localTracks (pc this')
           = <[rtcId localTrack := localTrack]> (localTracks (pc this))
         ∧ direction <$> transceivers (pc this') !! i = Some SENDRECV
         ∧ sender_encodings <$> transceivers (pc this') !! j
           = Some (_getStreamEncodings browser this localTrack)
         ∧ length (transceivers (pc this')) = length added).
Proof.
  intros Hfind Hdir Hstream added. unfold addTrackUnmute.
  rewrite Hfind, Hstream, decide_True by assumption. fold added. split.
  - intros Hnone.
    by rewrite (setEncodings_throws_none browser (with_transceivers this added)
                  localTrack Hnone).
  - intros j sender Hsender Hlt.
    unfold setEncodings. simpl transceivers. rewrite Hsender.
    eexists. split; [reflexivity|]. simpl.
    pose proof Hsender as (Hj & _ & _)%list_find_Some.
    assert (j < length added) as Hjlt by (by eapply lookup_lt_Some).
    split_and!.
    + reflexivity.
    + rewrite list_lookup_alter_eq.
      destruct (<[j:=_]> added !! i) as [t|] eqn:Ht; [reflexivity|].
      apply lookup_ge_None in Ht. rewrite length_insert in Ht. lia.
    + destruct (decide (i = j)) as [->|Hne].
      * rewrite list_lookup_alter_eq, list_lookup_insert_eq by assumption. reflexivity.
      * rewrite list_lookup_alter_ne, list_lookup_insert_eq by done. reflexivity.
    + by rewrite length_alter, length_insert.
Qed.

(** The theorem on a session that started muted, with a platform that
    attaches the camera to the video sender and with one that attaches
    nothing. *)
Lemma addTrackUnmute_recvonly_with_stream_witness :
  list_find (λ t, receiver_kind t = getType camera_track_720)
            (transceivers (pc muted_start_utils)) = Some (1, recvonly_video)
  ∧ direction recvonly_video = RECVONLY
  ∧ getOriginalStream camera_track_720 = Some camera_stream
  ∧ addTrackUnmute chrome no_addStream muted_start_utils camera_track_720
    = (Thrown TypeError, muted_start_utils)
  ∧ ∃ this',
      addTrackUnmute chrome attach_camera muted_start_utils camera_track_720
      = (Resolved (), this')
      ∧ localTracks (pc this') !! 1%Z = Some camera_track_720
      ∧ direction <$> transceivers (pc this') !! 1 = Some SENDRECV.
Proof.
  split_and!; [reflexivity..| |].
  - destruct (addTrackUnmute_recvonly_with_stream chrome no_addStream
                muted_start_utils camera_track_720 1 recvonly_video camera_stream
                eq_refl eq_refl eq_refl) as [Hthrow _].
    rewrite Hthrow; [reflexivity|]. repeat constructor; discriminate.
  - destruct (addTrackUnmute_recvonly_with_stream chrome attach_camera
                muted_start_utils camera_track_720 1 recvonly_video camera_stream
                eq_refl eq_refl eq_refl) as [_ Hresolve].
    destruct (Hresolve 1 (sender_replaceTrack recvonly_video
                            (Some (getTrack camera_track_720))) eq_refl)
      as (this' & Hrun & Hmap & Hdir & _).
    { simpl. lia. }
    exists this'. split; [exact Hrun|]. split; [|exact Hdir].
    rewrite Hmap. apply lookup_insert_eq.
Defined.

(** ** replaceTrack: what it touches *)






(** X16.  With an old track that is not muted, only the transceiver whose
    sender holds that very track is taken: when no sender holds it,
    [replaceTrack] rejects with "replace track failed" and changes nothing,
    even when transceivers of the kind exist. *)
Theorem replaceTrack_old_track_not_held (multiStream : bool)
    (getLocalTracks : TraceablePeerConnection → option string → list JitsiLocalTrack)
    (Number : string → number) (this : TPCUtils)
    (oldTrack : JitsiLocalTrack) (newTrack : option JitsiLocalTrack) :
  isMuted oldTrack = false →
  Forall (λ t, track_id <$> sender_track t ≠ Some (track_id (getTrack oldTrack)))
         (transceivers (pc this)) →
  replaceTrack multiStream getLocalTracks Number this (Some oldTrack) newTrack
  = (Rejected "replace track failed", this).
Proof.
  intros Hmuted Hnone. unfold replaceTrack, replaceTrack_select, unmuted.
  rewrite Hmuted. simpl.
  by rewrite (proj2 (list_find_None _ _) Hnone).
Qed.

(** The theorem for a camera that no sender holds, on a connection that
    sends another camera. *)
Lemma replaceTrack_old_track_not_held_witness :
  isMuted other_camera_track = false
  ∧ list_find (λ t, receiver_kind t = "video") (transceivers (pc sending_utils))
    = Some (1, camera_sender)
  ∧ replaceTrack false tracksOfKind decimalNumber sending_utils
      (Some other_camera_track) (Some camera_track_720)
    = (Rejected "replace track failed", sending_utils).
Proof.
  split; [reflexivity|]. split; [reflexivity|].
  apply (replaceTrack_old_track_not_held false tracksOfKind decimalNumber
           sending_utils other_camera_track (Some camera_track_720) eq_refl).
  repeat constructor; discriminate.
Defined.



(** ** replaceTrack: malformed source names *)

Lemma split_nonempty (sep : ascii) (s : string) : split sep s ≠ [].
Proof.
  destruct s as [|c s]; simpl; [discriminate|].
  destruct (Ascii.eqb c sep); [discriminate|]. by destruct (split sep s).
Qed.

Lemma split_second (sep : ascii) (s : string) :
  is_Some (split sep s !! 1) ↔ occurs sep s = true.
Proof.
  induction s as [|c s IH]; simpl.
  - split; [intros [? [=]] | discriminate].
  - destruct (Ascii.eqb c sep); simpl.
    + split; [done|]. intros _.
      pose proof (split_nonempty sep s). destruct (split sep s); [done|]. by eexists.
    + rewrite <- IH. pose proof (split_nonempty sep s).
      by destruct (split sep s).
Qed.

(** X18.  In the mute/unmute branch, for a track with a non-empty source
    name, [replaceTrack] throws a [TypeError] (before any promise exists, and
    without touching the connection) exactly when the name contains no
    dash. *)
Theorem replaceTrack_throws_iff (multiStream : bool)
    (getLocalTracks : TraceablePeerConnection → option string → list JitsiLocalTrack)
    (Number : string → number) (this : TPCUtils)
    (oldTrack newTrack : option JitsiLocalTrack) (sourceName : string) :
  unmuted oldTrack = false →
  isNewLocalSource multiStream getLocalTracks this oldTrack newTrack = false →
  replaceTrack_sourceName oldTrack newTrack = Some sourceName →
  sourceName ≠ "" →
  (replaceTrack multiStream getLocalTracks Number this oldTrack newTrack
   = (Thrown TypeError, this)
   ↔ occurs "-" sourceName = false).
Proof.
  intros Hold Hnew Hname Hne.
  unfold replaceTrack, replaceTrack_select.
  rewrite Hold, Hnew, Hname, (truthy_nonempty _ Hne).
  destruct (split "-" sourceName !! 1) as [field|] eqn:Hfield.
  - assert (occurs "-" sourceName = true) as ->
      by (apply split_second; rewrite Hfield; by eexists).
    split; [|discriminate].
    destruct (number_truthy _).
    + by destruct (index _ _) as [[??]|].
    + by destruct (list_find _ _) as [[??]|].
  - split; [|reflexivity]. intros _.
    destruct (occurs "-" sourceName) eqn:Hocc; [|reflexivity].
    apply split_second in Hocc. rewrite Hfield in Hocc. by destruct Hocc.
Qed.

(** The theorem for a muted camera named [camera]. *)
Lemma replaceTrack_throws_iff_witness :
  unmuted None = false
  ∧ isNewLocalSource false tracksOfKind sending_utils None (Some unnamed_camera_track)
    = false
  ∧ replaceTrack_sourceName None (Some unnamed_camera_track) = Some "camera"
  ∧ "camera" ≠ ""
  ∧ replaceTrack false tracksOfKind decimalNumber sending_utils
      None (Some unnamed_camera_track)
    = (Thrown TypeError, sending_utils).
Proof.
  assert ("camera" ≠ "") as Hne by discriminate.
  split_and!; [reflexivity | reflexivity | reflexivity | exact Hne |].
  apply (replaceTrack_throws_iff false tracksOfKind decimalNumber sending_utils
           None (Some unnamed_camera_track) "camera" eq_refl eq_refl eq_refl Hne).
  reflexivity.
Defined.

(** ** addTrack followed by setEncodings *)



(** ** setMediaTransferActive *)

Section TransferPass.

Variable mediaType : string.
Variable dir : nat → MediaDirection.

Local Abbreviation step :=
  (λ (all : list RTCRtpTransceiver) (entry : nat * (nat * RTCRtpTransceiver)),
     alter (λ transceiver, set_direction transceiver (dir entry.1)) entry.2.1 all).

Lemma transfer_loop_pass (ts pre : list RTCRtpTransceiver) (k : nat) :
  foldl step (pre ++ ts)
        (imap (λ i x, (k + i, x))
              (filter (λ it, receiver_kind it.2 = mediaType)
                      (imap (λ i t, (length pre + i, t)) ts)))
  = pre ++ transferPass mediaType dir k ts.
Proof.
  revert pre k. induction ts as [|t ts IH]; intros pre k; [reflexivity|].
  rewrite imap_cons, filter_cons. simpl transferPass.
  destruct (decide (receiver_kind t = mediaType)) as [Hk|Hk].
  - rewrite decide_True by exact Hk. rewrite imap_cons. simpl foldl.
    rewrite alter_app_r. simpl alter.
    rewrite (cons_middle _ pre ts), app_assoc.
    rewrite (imap_ext ((λ i x, (k + i, x)) ∘ S) (λ i x, (S k + i, x)))
      by (intros; simpl; f_equal; lia).
    rewrite (imap_ext ((λ i t, (length pre + i, t)) ∘ S)
               (λ i t', (length (pre ++ [set_direction t (dir (k + 0))]) + i, t')))
      by (intros; simpl; rewrite length_app; simpl; f_equal; lia).
    rewrite IH, <- app_assoc, Nat.add_0_r. reflexivity.
  - rewrite decide_False by exact Hk.
    rewrite (cons_middle _ pre ts), app_assoc.
    rewrite (imap_ext ((λ i t, (length pre + i, t)) ∘ S)
               (λ i t', (length (pre ++ [t]) + i, t')))
      by (intros; simpl; rewrite length_app; simpl; f_equal; lia).
    rewrite IH, <- app_assoc. reflexivity.
Qed.

Lemma transferPass_lookup (ts : list RTCRtpTransceiver) (k j : nat) :
  transferPass mediaType dir k ts !! j
  = (λ t, if decide (receiver_kind t = mediaType)
          then set_direction t
                 (dir (k + length (filter (λ t', receiver_kind t' = mediaType)
                                          (take j ts))))
          else t) <$> ts !! j.
Proof.
  revert k j. induction ts as [|t ts IH]; intros k j; [by destruct j|].
  simpl transferPass. destruct j as [|j].
  - simpl. destruct (decide (receiver_kind t = mediaType)); simpl;
      by rewrite ?Nat.add_0_r.
  - simpl take. rewrite filter_cons.
    destruct (decide (receiver_kind t = mediaType)); simpl; rewrite IH;
      [|reflexivity].
    destruct (ts !! j) as [t'|]; [|reflexivity]. simpl.
    destruct (decide (receiver_kind t' = mediaType)); [|reflexivity].
    do 3 f_equal. lia.
Qed.

Lemma transferPass_length (ts : list RTCRtpTransceiver) (k : nat) :
  length (transferPass mediaType dir k ts) = length ts.
Proof.
  revert k. induction ts as [|t ts IH]; intros k; [reflexivity|].
  simpl. destruct (decide _); simpl; by rewrite IH.
Qed.

End TransferPass.

Lemma setMediaTransferActive_pass
    (getLocalTracks : TraceablePeerConnection → option string → list JitsiLocalTrack)
    (this : TPCUtils) (mediaType : string) (active : bool) :
  setMediaTransferActive getLocalTracks this mediaType active
  = with_transceivers this
      (transferPass mediaType
         (λ idx, transferDirection active idx
                   (getLocalTracks (pc this) (Some mediaType)))
         0 (transceivers (pc this))).
Proof.
  unfold setMediaTransferActive, indexed. f_equal.
  pose proof (transfer_loop_pass mediaType
                (λ idx, transferDirection active idx
                          (getLocalTracks (pc this) (Some mediaType)))
                (transceivers (pc this)) [] 0) as Hpass.
  simpl in Hpass. exact Hpass.
Qed.

(** X20.  Suspending the transfer of a kind sets every transceiver whose
    receiver is of that kind to inactive and touches nothing else: the
    transceivers of other kinds, and the number, senders and encodings of
    all transceivers, are as before, as is the map of local tracks. *)
Theorem setMediaTransferActive_suspends
    (getLocalTracks : TraceablePeerConnection → option string → list JitsiLocalTrack)
    (this : TPCUtils) (mediaType : string) :
  (∀ j t,
     transceivers (pc this) !! j = Some t →
     transceivers (pc (setMediaTransferActive getLocalTracks this mediaType false)) !! j
     = Some (if decide (receiver_kind t = mediaType)
             then set_direction t INACTIVE else t))
  ∧ length (transceivers (pc (setMediaTransferActive getLocalTracks this mediaType false)))
    = length (transceivers (pc this))
  ∧ localTracks (pc (setMediaTransferActive getLocalTracks this mediaType false))
    = localTracks (pc this).
Proof.
  rewrite setMediaTransferActive_pass. simpl. split_and!.
  - intros j t Hj. rewrite transferPass_lookup, Hj. reflexivity.
  - apply transferPass_length.
  - reflexivity.
Qed.

(** The theorem for video on a connection that sends a camera. *)
Lemma setMediaTransferActive_suspends_witness :
  direction
    <$> transceivers (pc (setMediaTransferActive tracksOfKind sending_utils "video" false))
  = [SENDRECV; INACTIVE; INACTIVE].
Proof.
  destruct (setMediaTransferActive_suspends tracksOfKind sending_utils "video")
    as (Hlook & Hlen & _).
  destruct (transceivers
              (pc (setMediaTransferActive tracksOfKind sending_utils "video" false)))
    as [|t0 [|t1 [|t2 [|]]]]; try discriminate Hlen.
  pose proof (Hlook 0 _ eq_refl) as H0. pose proof (Hlook 1 _ eq_refl) as H1.
  pose proof (Hlook 2 _ eq_refl) as H2.
  injection H0 as ->. injection H1 as ->. injection H2 as ->. reflexivity.
Defined.

Lemma filter_none {A} (P : A → Prop) `{∀ x, Decision (P x)} (l : list A) :
  (∀ y, y ∈ l → ¬ P y) → filter P l = [].
Proof.
  induction l as [|x l IH]; intros Hl; [reflexivity|].
  rewrite filter_cons_False by (apply Hl; left).
  apply IH. intros y Hy. apply Hl. by right.
Qed.

Lemma filter_take_first {A} (P : A → Prop) `{∀ x, Decision (P x)}
    (l : list A) (i j : nat) (x : A) :
  list_find P l = Some (i, x) →
  (j ≤ i → filter P (take j l) = [])
  ∧ (i < j → filter P (take j l) ≠ []).
Proof.
  intros (Hi & HP & Hbefore)%list_find_Some. split.
  - intros Hj. apply filter_none. intros y Hy.
    apply list_elem_of_lookup in Hy as [n Hn].
    pose proof (lookup_lt_Some _ _ _ Hn) as Hlt. rewrite length_take in Hlt.
    rewrite lookup_take_lt in Hn by lia. apply (Hbefore n y Hn). lia.
  - intros Hj Hnil.
    assert (x ∈ filter P (take j l)) as Hx.
    { apply list_elem_of_filter. split; [exact HP|].
      apply list_elem_of_lookup. exists i. by rewrite lookup_take_lt. }
    rewrite Hnil in Hx. by apply elem_of_nil in Hx.
Qed.

(** X21.  Resuming the transfer of a kind sets the first transceiver of
    that kind to sendrecv when the connection has local tracks of the kind
    and to recvonly when it has none, and every later transceiver of the
    kind to recvonly: afterwards at most one transceiver of the kind is
    sendrecv.  Transceivers of other kinds are unchanged. *)
Theorem setMediaTransferActive_resumes
    (getLocalTracks : TraceablePeerConnection → option string → list JitsiLocalTrack)
    (this : TPCUtils) (mediaType : string) (i : nat) (first : RTCRtpTransceiver) :
  list_find (λ t, receiver_kind t = mediaType) (transceivers (pc this))
    = Some (i, first) →
  (∀ j t,
     transceivers (pc this) !! j = Some t →
     transceivers (pc (setMediaTransferActive getLocalTracks this mediaType true)) !! j
     = Some (if decide (receiver_kind t = mediaType)
             then set_direction t
                    (if bool_decide (j = i)
                        && negb (length (getLocalTracks (pc this) (Some mediaType)) =? 0)
                     then SENDRECV else RECVONLY)
             else t))
  ∧ (∀ j t',
       transceivers (pc (setMediaTransferActive getLocalTracks this mediaType true)) !! j
       = Some t' →
       receiver_kind t' = mediaType → direction t' = SENDRECV → j = i).
Proof.
  intros Hfind. rewrite setMediaTransferActive_pass. simpl transceivers.
  assert (∀ j t,
     transceivers (pc this) !! j = Some t →
     transferPass mediaType
       (λ idx, transferDirection true idx (getLocalTracks (pc this) (Some mediaType)))
       0 (transceivers (pc this)) !! j
     = Some (if decide (receiver_kind t = mediaType)
             then set_direction t
                    (if bool_decide (j = i)
                        && negb (length (getLocalTracks (pc this) (Some mediaType)) =? 0)
                     then SENDRECV else RECVONLY)
             else t)) as Hlook.
  { intros j t Hj. rewrite transferPass_lookup, Hj. simpl.
    destruct (decide (receiver_kind t = mediaType)) as [Hk|Hk]; [|reflexivity].
    do 2 f_equal. unfold transferDirection. simpl.
    destruct (filter_take_first _ _ i j first Hfind) as [Hle Hgt].
    destruct (decide (j = i)) as [->|Hne].
    - rewrite Hle by lia. by rewrite bool_decide_eq_true_2.
    - rewrite bool_decide_eq_false_2 by exact Hne.
      assert (i < j) as Hlt.
      { apply list_find_Some in Hfind as (_ & _ & Hbefore).
        destruct (decide (j < i)) as [Hji|]; [|lia].
        by destruct (Hbefore j t Hj Hji). }
      specialize (Hgt Hlt).
      by destruct (filter _ (take j (transceivers (pc this)))). }
  split; [exact Hlook|].
  intros j t' Hj Hkind Hdir.
  change (transferPass mediaType
            (λ idx, transferDirection true idx
                      (getLocalTracks (pc this) (Some mediaType)))
            0 (transceivers (pc this)) !! j = Some t') in Hj.
  destruct (transceivers (pc this) !! j) as [t|] eqn:Ht.
  - rewrite (Hlook j t Ht) in Hj. injection Hj as <-.
    destruct (decide (receiver_kind t = mediaType)) as [Hk|Hk]; [|done].
    simpl in Hdir. destruct (bool_decide (j = i)) eqn:Hji.
    + by apply bool_decide_eq_true in Hji.
    + discriminate Hdir.
  - apply lookup_ge_None in Ht. apply lookup_lt_Some in Hj.
    rewrite transferPass_length in Hj. lia.
Qed.

(** The theorem for video on a suspended connection with a local camera. *)
Lemma setMediaTransferActive_resumes_witness :
  list_find (λ t, receiver_kind t = "video") (transceivers (pc suspended_utils))
    = Some (1, inactive "video")
  ∧ direction
      <$> transceivers
            (pc (setMediaTransferActive tracksOfKind suspended_utils "video" true)) !! 0
    = Some INACTIVE
  ∧ direction
      <$> transceivers
            (pc (setMediaTransferActive tracksOfKind suspended_utils "video" true)) !! 1
    = Some SENDRECV
  ∧ direction
      <$> transceivers
            (pc (setMediaTransferActive tracksOfKind suspended_utils "video" true)) !! 2
    = Some RECVONLY.
Proof.
  split; [reflexivity|].
  destruct (setMediaTransferActive_resumes tracksOfKind suspended_utils "video"
              1 (inactive "video") eq_refl) as [Hlook _].
  rewrite (Hlook 0 _ eq_refl), (Hlook 1 _ eq_refl), (Hlook 2 _ eq_refl).
  split_and!; reflexivity.
Defined.

Lemma transferPass_again (mediaType : string) (dir dir' : nat → MediaDirection)
    (ts : list RTCRtpTransceiver) (k k' : nat) :
  transferPass mediaType dir' k' (transferPass mediaType dir k ts)
  = transferPass mediaType dir' k' ts.
Proof.
  revert k k'. induction ts as [|t ts IH]; intros k k'; [reflexivity|].
  simpl. destruct (decide (receiver_kind t = mediaType)) as [Hk|Hk]; simpl.
  - rewrite decide_True by exact Hk. by rewrite IH.
  - rewrite decide_False by exact Hk. by rewrite IH.
Qed.

Lemma transferPass_commute (kind1 kind2 : string) (dir1 dir2 : nat → MediaDirection)
    (ts : list RTCRtpTransceiver) (k1 k2 : nat) :
  kind1 ≠ kind2 →
  transferPass kind2 dir2 k2 (transferPass kind1 dir1 k1 ts)
  = transferPass kind1 dir1 k1 (transferPass kind2 dir2 k2 ts).
Proof.
  intros Hne. revert k1 k2. induction ts as [|t ts IH]; intros k1 k2; [reflexivity|].
  simpl. destruct (decide (receiver_kind t = kind1)) as [H1|H1];
    destruct (decide (receiver_kind t = kind2)) as [H2|H2]; simpl.
  - congruence.
  - rewrite decide_False, decide_True by assumption. by rewrite IH.
  - rewrite decide_True, decide_False by assumption. by rewrite IH.
  - rewrite decide_False, decide_False by assumption. by rewrite IH.
Qed.

Lemma getLocalTracks_with
    (getLocalTracks : TraceablePeerConnection → option string → list JitsiLocalTrack)
    (Hignore : ignoresTransceivers getLocalTracks)
    (this : TPCUtils) (ts : list RTCRtpTransceiver) (mediaType : option string) :
  getLocalTracks (pc (with_transceivers this ts)) mediaType
  = getLocalTracks (pc this) mediaType.
Proof. apply Hignore. Qed.

(** X22.  Of two calls for the same kind the later one decides: resuming or
    suspending after an earlier call gives the connection the later call
    alone would give.  In particular a repeated call changes nothing.  (For
    a [getLocalTracks] that does not depend on the transceivers.) *)
Theorem setMediaTransferActive_last_wins
    (getLocalTracks : TraceablePeerConnection → option string → list JitsiLocalTrack)
    (this : TPCUtils) (mediaType : string) (earlier later : bool) :
  ignoresTransceivers getLocalTracks →
  setMediaTransferActive getLocalTracks
    (setMediaTransferActive getLocalTracks this mediaType earlier) mediaType later
  = setMediaTransferActive getLocalTracks this mediaType later.
Proof.
  intros Hignore. rewrite !setMediaTransferActive_pass.
  rewrite with_transceivers_twice. simpl. unfold with_transceivers at 1. simpl.
  rewrite Hignore, transferPass_again. reflexivity.
Qed.

(** The theorem for suspending and resuming video while a camera is sent:
    the directions are those of the resume alone. *)
Lemma setMediaTransferActive_last_wins_witness :
  ignoresTransceivers tracksOfKind
  ∧ setMediaTransferActive tracksOfKind
      (setMediaTransferActive tracksOfKind sending_utils "video" false) "video" true
    = setMediaTransferActive tracksOfKind sending_utils "video" true.
Proof.
  assert (ignoresTransceivers tracksOfKind) as H by (intros ???; reflexivity).
  split; [exact H|].
  exact (setMediaTransferActive_last_wins tracksOfKind sending_utils "video"
           false true H).
Defined.

(** X23.  Audio and video are switched independently: a call of
    [setAudioTransferActive] and a call of [setVideoTransferActive] give
    the same connection in either order.  (For a [getLocalTracks] that does
    not depend on the transceivers.) *)
Theorem setAudioTransferActive_setVideoTransferActive
    (getLocalTracks : TraceablePeerConnection → option string → list JitsiLocalTrack)
    (this : TPCUtils) (audio video : bool) :
  ignoresTransceivers getLocalTracks →
  setVideoTransferActive getLocalTracks
    (setAudioTransferActive getLocalTracks this audio) video
  = setAudioTransferActive getLocalTracks
      (setVideoTransferActive getLocalTracks this video) audio.
Proof.
  intros Hignore. unfold setVideoTransferActive, setAudioTransferActive.
  rewrite !setMediaTransferActive_pass, !with_transceivers_twice.
  rewrite !(getLocalTracks_with _ Hignore). f_equal.
  change (transceivers (pc (with_transceivers this ?ts))) with ts.
  symmetry. apply transferPass_commute. discriminate.
Qed.

(** The theorem for resuming audio and suspending video. *)
Lemma setAudioTransferActive_setVideoTransferActive_witness :
  ignoresTransceivers tracksOfKind
  ∧ direction
      <$> transceivers
            (pc (setVideoTransferActive tracksOfKind
                   (setAudioTransferActive tracksOfKind sending_utils true) false))
    = direction
        <$> transceivers
              (pc (setAudioTransferActive tracksOfKind
                     (setVideoTransferActive tracksOfKind sending_utils false) true)).
Proof.
  assert (ignoresTransceivers tracksOfKind) as H by (intros ???; reflexivity).
  split; [exact H|].
  by rewrite (setAudioTransferActive_setVideoTransferActive tracksOfKind
                sending_utils true false H).
Defined.

(** ** Degenerate inputs *)

(** X24.  [replaceTrack] without an old and without a new track finds no
    transceiver, whatever the connection: it rejects with
    "replace track failed" and changes nothing. *)
Theorem replaceTrack_without_tracks (multiStream : bool)
    (getLocalTracks : TraceablePeerConnection → option string → list JitsiLocalTrack)
    (Number : string → number) (this : TPCUtils) :
  replaceTrack multiStream getLocalTracks Number this None None
  = (Rejected "replace track failed", this).
Proof.
  unfold replaceTrack, replaceTrack_select, isNewLocalSource. simpl.
  rewrite andb_false_r.
  destruct (list_find _ (transceivers (pc this))) as [[i t]|] eqn:Hfind;
    [|reflexivity].
  by apply list_find_Some in Hfind as (_ & [=] & _).
Qed.

(** X25.  For a camera track whose capture height is undefined, no layer
    is active by its height: only the layer with scale factor 4 (the first
    one, the last one on Firefox) can be active, and it is exactly when the
    requested height is positive. *)
Theorem calculateEncodingsActiveState_camera_no_height
    (browser : Browser) (this : TPCUtils) (track : JitsiLocalTrack) (newHeight : Z) :
  getVideoType track = VideoType.CAMERA →
  settings_height (getTrack track) = None →
  calculateEncodingsActiveState browser this track newHeight
  = if isFirefox browser
    then [false; false; (0 <? newHeight)%Z]
    else [(0 <? newHeight)%Z; false; false].
Proof.
  intros Hcam Hh. unfold calculateEncodingsActiveState, localStreamEncodingsConfig.
  rewrite Hcam, Hh. simpl String.eqb.
  destruct (isSharingLowFpsScreen (pc this)), (isFirefox browser),
    (0 <? newHeight)%Z; reflexivity.
Qed.

(** The theorem on Chrome for a request of 360. *)
Lemma calculateEncodingsActiveState_camera_no_height_witness :
  getVideoType camera_track_no_height = VideoType.CAMERA
  ∧ settings_height (getTrack camera_track_no_height) = None
  ∧ calculateEncodingsActiveState chrome sample_utils camera_track_no_height 360
    = [true; false; false].
Proof.
  split; [reflexivity|]. split; [reflexivity|].
  exact (calculateEncodingsActiveState_camera_no_height
           chrome sample_utils camera_track_no_height 360 eq_refl eq_refl).
Defined.
